(** * GitLite: the GitHub client, the repository browser and the repository list

    A shallow embedding of [services/github.ts], [components/FileExplorer.tsx],
    [components/RepoList.tsx] and [App.tsx], followed by the properties the
    specification states about them.

    Conventions.
    - A JavaScript string is the list of its UTF-16 code units ([jsstring]).
    - A [Uint8Array] and the content of a [File] are lists of [byte].
    - An [async] function is run to completion: it becomes a function from the
      world before the call to its outcome and the world after it.  The world
      holds the remote (behind [fetch]), the log of the requests sent and the
      alerts shown.
    - A React state cell is a field of a record; [setX v] is a record update. *)

From Stdlib Require Import NArith ZArith List Lia Bool String Ascii.
From Stdlib Require Import Strings.Byte Sorting.Sorted Sorting.Permutation.
Import ListNotations.

Local Open Scope N_scope.

(* ================================================================== *)
(** * JavaScript values the client handles *)
(* ================================================================== *)

Module Js.

Definition code_unit := N.
Definition jsstring := list code_unit.

(** A string literal of the source. *)
Definition js (s : string) : jsstring :=
  map N_of_ascii (list_ascii_of_string s).
Arguments js s : simpl never.

Fixpoint eqb (s t : jsstring) : bool :=
  match s, t with
  | [], [] => true
  | c :: s', d :: t' => (c =? d) && eqb s' t'
  | _, _ => false
  end.

(** [s.startsWith(p)] *)
Fixpoint startsWith (s p : jsstring) {struct p} : bool :=
  match p with
  | [] => true
  | c :: p' =>
      match s with
      | [] => false
      | d :: s' => (d =? c) && startsWith s' p'
      end
  end.

(** [s.slice(n)] for [0 <= n] *)
Definition slice (s : jsstring) (n : nat) : jsstring := skipn n s.

(** A string is truthy when it is not empty. *)
Definition truthy (s : jsstring) : bool :=
  match s with [] => false | _ :: _ => true end.

(** [a || b] on strings *)
Definition or_else (a b : jsstring) : jsstring := if truthy a then a else b.

(** [c.repeat(n)] for a one-unit string *)
Definition repeat_unit (c : code_unit) (n : nat) : jsstring := repeat c n.

Fixpoint digits (u : Decimal.uint) : jsstring :=
  match u with
  | Decimal.Nil => []
  | Decimal.D0 u => 48 :: digits u
  | Decimal.D1 u => 49 :: digits u
  | Decimal.D2 u => 50 :: digits u
  | Decimal.D3 u => 51 :: digits u
  | Decimal.D4 u => 52 :: digits u
  | Decimal.D5 u => 53 :: digits u
  | Decimal.D6 u => 54 :: digits u
  | Decimal.D7 u => 55 :: digits u
  | Decimal.D8 u => 56 :: digits u
  | Decimal.D9 u => 57 :: digits u
  end.

(** [`${n}`] for a non-negative integer [n] *)
Definition decimal (n : N) : jsstring := digits (N.to_uint n).

(** A parsed JSON text.  A number is kept as the two things a client can
    observe of it here: whether it is zero, and its conversion to a string. *)
#[local] Unset Elimination Schemes.
Inductive JsVal :=
| JNull
| JBool (b : bool)
| JNum (is_zero : bool) (shown : jsstring)
| JStr (s : jsstring)
| JArr (items : list JsVal)
| JObj (fields : list (jsstring * JsVal)).
#[local] Set Elimination Schemes.

Fixpoint assoc (k : jsstring) (fields : list (jsstring * JsVal)) : option JsVal :=
  match fields with
  | [] => None
  | (k', v) :: rest => if eqb k k' then Some v else assoc k rest
  end.

(** ToBoolean; [None] stands for [undefined]. *)
Definition to_boolean (v : option JsVal) : bool :=
  match v with
  | None => false
  | Some JNull => false
  | Some (JBool b) => b
  | Some (JNum z _) => negb z
  | Some (JStr s) => truthy s
  | Some (JArr _) => true
  | Some (JObj _) => true
  end.

(** What is thrown or what a promise rejects with: an [Error] object with
    its [name] and [message], or a value that has no [message]. *)
Inductive Thrown :=
| ErrorObj (name message : jsstring)
| NotAnError.

(** [`${err.message}`] *)
Definition message_text (e : Thrown) : jsstring :=
  match e with
  | ErrorObj _ m => m
  | NotAnError => js "undefined"
  end.

(** ToString of a JSON value: [None] when ToPrimitive throws a TypeError,
    which happens for an object that has an own [toString] property (no JSON
    value is callable).  An array is joined with commas, [null] items giving
    the empty string. *)
Fixpoint join_with (sep : jsstring) (parts : list jsstring) : jsstring :=
  match parts with
  | [] => []
  | [p] => p
  | p :: rest => p ++ sep ++ join_with sep rest
  end.

Fixpoint sequence {A} (l : list (option A)) : option (list A) :=
  match l with
  | [] => Some []
  | None :: _ => None
  | Some a :: rest =>
      match sequence rest with
      | Some r => Some (a :: r)
      | None => None
      end
  end.

Fixpoint to_string (v : JsVal) : option jsstring :=
  match v with
  | JNull => Some (js "null")
  | JBool true => Some (js "true")
  | JBool false => Some (js "false")
  | JNum _ shown => Some shown
  | JStr s => Some s
  | JArr items =>
      let item_text (i : JsVal) :=
        match i with JNull => Some [] | _ => to_string i end in
      match sequence (map item_text items) with
      | Some parts => Some (join_with (js ",") parts)
      | None => None
      end
  | JObj fields =>
      match assoc (js "toString") fields with
      | Some _ => None
      | None => Some (js "[object Object]")
      end
  end.

End Js.
Import Js.

(* ================================================================== *)
(** * types.ts *)
(* ================================================================== *)

Record Owner := { owner_login : jsstring; owner_avatar_url : jsstring }.

Record Repository := {
  repo_id : N;
  repo_name : jsstring;
  full_name : jsstring;
  repo_private : bool;
  description : option jsstring;
  updated_at : jsstring;
  default_branch : jsstring;
  owner : Owner
}.

Inductive EntryType := file | dir.

Definition EntryType_eqb (a b : EntryType) : bool :=
  match a, b with
  | file, file | dir, dir => true
  | _, _ => false
  end.

Record FileEntry := {
  name : jsstring;
  path : jsstring;
  sha : jsstring;
  size : N;
  entry_url : jsstring;
  html_url : jsstring;
  type : EntryType;
  content : option jsstring;
  encoding : option jsstring
}.

Record CreateRepoParams := {
  cr_name : jsstring;
  cr_private : bool;
  cr_description : option jsstring;
  cr_auto_init : option bool
}.

Record CommitParams := {
  cp_owner : jsstring;
  cp_repo : jsstring;
  cp_path : jsstring;
  cp_message : jsstring;
  cp_content : jsstring;
  cp_sha : option jsstring
}.

(** The browser's [File]: its name, the path relative to the picked directory
    (empty for a single file), the media type a reader gives it and its bytes;
    [None] for the bytes when reading the file fails. *)
Record File := {
  file_name : jsstring;
  webkitRelativePath : jsstring;
  media_type : jsstring;
  file_bytes : option (list byte)
}.

(* ================================================================== *)
(** * Codecs of the browser the client calls *)
(* ================================================================== *)

(** [bytes[i] = n] on a [Uint8Array] keeps [n] modulo 256. *)
Definition to_uint8 (n : N) : byte :=
  match Byte.of_N (n mod 256) with
  | Some b => b
  | None => x00
  end.

(** Base64 of RFC 4648, as [FileReader.readAsDataURL] writes it and as [atob]
    (the "forgiving-base64 decode" of the WHATWG Infra standard) reads it. *)
Module Base64.

Definition digit (i : N) : code_unit :=
  if i <? 26 then 65 + i
  else if i <? 52 then 71 + i
  else if i <? 62 then i - 4
  else if i =? 62 then 43
  else 47.

Definition value (c : code_unit) : option N :=
  if (65 <=? c) && (c <=? 90) then Some (c - 65)
  else if (97 <=? c) && (c <=? 122) then Some (c - 71)
  else if (48 <=? c) && (c <=? 57) then Some (c + 4)
  else if c =? 43 then Some 62
  else if c =? 47 then Some 63
  else None.

Definition equals_sign : code_unit := 61.

(** The 6-bit groups of the input, three bytes giving four groups; a last
    group of one or two bytes is filled with zero bits. *)
Fixpoint sextets (bs : list byte) : list N :=
  match bs with
  | [] => []
  | [a] =>
      let n := Byte.to_N a * 65536 in
      [n / 262144; n / 4096 mod 64]
  | [a; b] =>
      let n := Byte.to_N a * 65536 + Byte.to_N b * 256 in
      [n / 262144; n / 4096 mod 64; n / 64 mod 64]
  | a :: b :: c :: rest =>
      let n := Byte.to_N a * 65536 + Byte.to_N b * 256 + Byte.to_N c in
      n / 262144 :: n / 4096 mod 64 :: n / 64 mod 64 :: n mod 64 :: sextets rest
  end.

Fixpoint padding (bs : list byte) : jsstring :=
  match bs with
  | [] => []
  | [_] => [equals_sign; equals_sign]
  | [_; _] => [equals_sign]
  | _ :: _ :: _ :: rest => padding rest
  end.

Definition encode (bs : list byte) : jsstring :=
  map digit (sextets bs) ++ padding bs.

Definition ascii_whitespace (c : code_unit) : bool :=
  (c =? 9) || (c =? 10) || (c =? 12) || (c =? 13) || (c =? 32).

(** Removes the one or two [=] that end the data. *)
Fixpoint drop_padding (data : jsstring) : jsstring :=
  match data with
  | [] => []
  | c :: rest =>
      match rest with
      | [] => if c =? equals_sign then [] else [c]
      | [d] =>
          if (c =? equals_sign) && (d =? equals_sign) then []
          else c :: drop_padding rest
      | _ => c :: drop_padding rest
      end
  end.

(** The bytes of a sequence of 6-bit groups: four groups give three bytes,
    a rest of three groups two bytes, a rest of two groups one byte. *)
Fixpoint octets (vs : list N) : list N :=
  match vs with
  | v1 :: v2 :: v3 :: v4 :: rest =>
      let n := v1 * 262144 + v2 * 4096 + v3 * 64 + v4 in
      n / 65536 :: n / 256 mod 256 :: n mod 256 :: octets rest
  | [v1; v2; v3] =>
      let n := (v1 * 4096 + v2 * 64 + v3) / 4 in
      [n / 256; n mod 256]
  | [v1; v2] => [(v1 * 64 + v2) / 16]
  | _ => []
  end.

(** [atob(data)]: [None] when it throws an InvalidCharacterError.  The result
    is a string whose code units are the decoded bytes. *)
Definition atob (data : jsstring) : option jsstring :=
  let data := filter (fun c => negb (ascii_whitespace c)) data in
  let data :=
    if N.of_nat (List.length data) mod 4 =? 0 then drop_padding data else data in
  if N.of_nat (List.length data) mod 4 =? 1 then None
  else
    match sequence (map value data) with
    | None => None
    | Some vs => Some (octets vs)
    end.

End Base64.

(** UTF-8 and UTF-16 of the WHATWG Encoding standard. *)
Module Utf8.

Definition code_point := N.

Definition is_scalar (c : code_point) : bool :=
  (c <=? 1114111) && negb ((55296 <=? c) && (c <=? 57343)).

(** The UTF-8 encoder: the bytes of one scalar value. *)
Definition continuation (c : code_point) (k : N) : N :=
  N.lor 128 (N.land (N.shiftr c (6 * k)) 63).

Definition encode_one (c : code_point) : list N :=
  if c <=? 127 then [c]
  else if c <=? 2047 then [N.shiftr c 6 + 192; continuation c 0]
  else if c <=? 65535 then
    [N.shiftr c 12 + 224; continuation c 1; continuation c 0]
  else
    [N.shiftr c 18 + 240; continuation c 2; continuation c 1; continuation c 0].

Definition encode (text : list code_point) : list byte :=
  map to_uint8 (flat_map encode_one text).

(** The state of the UTF-8 decoder. *)
Record Decoder := {
  cp : code_point;
  bytes_seen : N;
  bytes_needed : N;
  lower_boundary : N;
  upper_boundary : N
}.

Definition initial : Decoder :=
  {| cp := 0; bytes_seen := 0; bytes_needed := 0;
     lower_boundary := 128; upper_boundary := 191 |}.

Definition replacement : code_point := 65533.

(** The handler on a byte when no byte is needed: the new state and what is
    emitted. *)
Definition lead (b : N) : Decoder * list code_point :=
  if b <=? 127 then (initial, [b])
  else if (194 <=? b) && (b <=? 223) then
    ({| cp := N.land b 31; bytes_seen := 0; bytes_needed := 1;
        lower_boundary := 128; upper_boundary := 191 |}, [])
  else if (224 <=? b) && (b <=? 239) then
    ({| cp := N.land b 15; bytes_seen := 0; bytes_needed := 2;
        lower_boundary := if b =? 224 then 160 else 128;
        upper_boundary := if b =? 237 then 159 else 191 |}, [])
  else if (240 <=? b) && (b <=? 244) then
    ({| cp := N.land b 7; bytes_seen := 0; bytes_needed := 3;
        lower_boundary := if b =? 240 then 144 else 128;
        upper_boundary := if b =? 244 then 143 else 191 |}, [])
  else (initial, [replacement]).

(** The handler on a byte: a byte out of the expected range ends the
    sequence with an error and is processed again as a first byte. *)
Definition handler (d : Decoder) (b : N) : Decoder * list code_point :=
  if bytes_needed d =? 0 then lead b
  else if negb ((lower_boundary d <=? b) && (b <=? upper_boundary d)) then
    let (d', out) := lead b in (d', replacement :: out)
  else
    let c := N.lor (N.shiftl (cp d) 6) (N.land b 63) in
    if bytes_seen d + 1 =? bytes_needed d then (initial, [c])
    else
      ({| cp := c; bytes_seen := bytes_seen d + 1;
          bytes_needed := bytes_needed d;
          lower_boundary := 128; upper_boundary := 191 |}, []).

Fixpoint run (d : Decoder) (bs : list byte) : list code_point :=
  match bs with
  | [] => if bytes_needed d =? 0 then [] else [replacement]
  | b :: rest =>
      let (d', out) := handler d (Byte.to_N b) in
      out ++ run d' rest
  end.

(** The byte order mark. *)
Definition BOM : code_point := 65279.

(** The text without the byte order mark it starts with, if any. *)
Definition without_BOM (text : list code_point) : list code_point :=
  match text with
  | [] => []
  | c :: rest => if c =? BOM then rest else text
  end.

(** [new TextDecoder('utf-8').decode(bytes)], as scalar values: errors are
    replaced (the decoder is not fatal) and a byte order mark at the start
    is dropped ([ignoreBOM] is false). *)
Definition decode (bs : list byte) : list code_point :=
  without_BOM (run initial bs).

(** The code units of a sequence of scalar values. *)
Definition utf16_one (c : code_point) : jsstring :=
  if c <? 65536 then [c]
  else
    let v := c - 65536 in
    [55296 + N.shiftr v 10; 56320 + N.land v 1023].

Definition utf16 (text : list code_point) : jsstring :=
  flat_map utf16_one text.

(** The string [TextDecoder.decode] returns. *)
Definition TextDecoder_decode (bs : list byte) : jsstring :=
  utf16 (decode bs).

End Utf8.

(* ================================================================== *)
(** * The remote and the world around the client *)
(* ================================================================== *)

Inductive Method := GET | POST | PUT | DELETE.

(** The body of a request, before [JSON.stringify]. *)
Inductive Body :=
| NoBody
| CreateRepoBody (params : CreateRepoParams)
| CommitBody (message content : jsstring) (sha : option jsstring)
| DeleteBody (message sha : jsstring).

Record Request := {
  url : jsstring;
  method : Method;
  headers : list (jsstring * jsstring);
  body : Body
}.

(** [FileEntry[] | FileEntry] *)
Inductive Contents :=
| IsArray (items : list FileEntry)
| IsEntry (entry : FileEntry).

(** The type a call site gives to the parsed body of a successful response. *)
Inductive Schema := AsRepositories | AsRepository | AsContents | AsAny.

Definition Parsed (s : Schema) : Type :=
  match s with
  | AsRepositories => list Repository
  | AsRepository => Repository
  | AsContents => Contents
  | AsAny => JsVal
  end.

(** A response: its status and what [response.json()] gives.  The body is
    read once: as [json_error] on the error branch of [githubFetch] ([None]
    when the promise rejects), as [json] on the success branch, at the type
    of the call site (or the error the promise rejects with). *)
Record Response (T : Type) := {
  status : N;
  json_error : option JsVal;
  json : Thrown + T
}.
Arguments status {T} _.
Arguments json_error {T} _.
Arguments json {T} _.

(** [response.ok] *)
Definition ok {T} (r : Response T) : bool :=
  (200 <=? status r) && (status r <=? 299).

Inductive Fetched (T : Type) :=
| Rejects (e : Thrown)
| Resolves (r : Response T).
Arguments Rejects {T} _.
Arguments Resolves {T} _.

Inductive EngineError := ReadOfNull | NoPrimitiveValue.

(** What the client runs on: the network with the remote behind it, and the
    messages the engine gives to the TypeErrors it raises. *)
Class Host := {
  Net : Type;
  fetch : forall s : Schema, Request -> Net -> Fetched (Parsed s) * Net;
  engine_message : EngineError -> jsstring
}.

Definition TypeError `{Host} (k : EngineError) : Thrown :=
  ErrorObj (js "TypeError") (engine_message k).

(** State and exceptions: a computation on a state [S] that returns or throws. *)
Module Run.

Definition M (S A : Type) := S -> (Thrown + A) * S.

Definition ret {S A} (a : A) : M S A := fun s => (inr a, s).

Definition throw {S A} (e : Thrown) : M S A := fun s => (inl e, s).

Definition bind {S A B} (m : M S A) (k : A -> M S B) : M S B :=
  fun s =>
    match m s with
    | (inl e, s') => (inl e, s')
    | (inr a, s') => k a s'
    end.

Definition modify {S} (f : S -> S) : M S unit := fun s => (inr tt, f s).

Definition gets {S A} (f : S -> A) : M S A := fun s => (inr (f s), s).

(** [try { m } catch (e) { h e }] *)
Definition try_catch {S A} (m : M S A) (h : Thrown -> M S A) : M S A :=
  fun s =>
    match m s with
    | (inl e, s') => h e s'
    | (inr a, s') => (inr a, s')
    end.

(** [try { m } finally { f }] *)
Definition finally {S A} (m : M S A) (f : M S unit) : M S A :=
  fun s =>
    let (r, s') := m s in
    match f s' with
    | (inl e, s'') => (inl e, s'')
    | (inr _, s'') => (r, s'')
    end.

Declare Scope run_scope.
Delimit Scope run_scope with run.
Notation "x <- m ;; k" := (bind m (fun x => k))
  (at level 61, m at next level, right associativity) : run_scope.
Notation "m ;; k" := (bind m (fun _ => k))
  (at level 61, right associativity) : run_scope.

End Run.
Import Run.
Local Open Scope run_scope.

Section World.
Context {H : Host}.

Record World := {
  net : Net;
  sent : list Request;
  alerts : list jsstring;
  console : list Thrown
}.

(** [fetch(url, options)]: the request is logged and handed to the network. *)
Definition send (s : Schema) (req : Request) : M World (Fetched (Parsed s)) :=
  fun w =>
    let (out, n) := fetch s req (net w) in
    (inr out,
     {| net := n; sent := sent w ++ [req];
        alerts := alerts w; console := console w |}).

(** [alert(text)] *)
Definition alert (text : jsstring) : M World unit :=
  modify (fun w =>
    {| net := net w; sent := sent w;
       alerts := alerts w ++ [text]; console := console w |}).

(** [console.error(err)] *)
Definition console_error (e : Thrown) : M World unit :=
  modify (fun w =>
    {| net := net w; sent := sent w;
       alerts := alerts w; console := console w ++ [e] |}).

End World.

(* ================================================================== *)
(** * services/github.ts *)
(* ================================================================== *)

Module Github.
Section Github.
Context {H : Host}.

Definition BASE_URL : jsstring := js "https://api.github.com".

Record RequestInit := { init_method : Method; init_body : Body }.

Definition no_options : RequestInit :=
  {| init_method := GET; init_body := NoBody |}.

(** [errorData.message]: [None] when the read throws ([errorData] is
    [null]), [Some None] when it gives [undefined]. *)
Definition get_message (errorData : JsVal) : option (option JsVal) :=
  match errorData with
  | JNull => None
  | JObj fields => Some (assoc (js "message") fields)
  | _ => Some None
  end.

(** What [githubFetch] throws for a response that is not ok:
    [new Error(errorData.message || `GitHub API Error: ${response.status}`)]
    with [errorData = await response.json().catch(() => ({}))]. *)
Definition error_of {T} (response : Response T) : Thrown :=
  let errorData :=
    match json_error response with
    | Some v => v
    | None => JObj []
    end in
  match get_message errorData with
  | None => TypeError ReadOfNull
  | Some message =>
      if to_boolean message then
        match message with
        | Some v =>
            match to_string v with
            | Some text => ErrorObj (js "Error") text
            | None => TypeError NoPrimitiveValue
            end
        | None => ErrorObj (js "Error") []
        end
      else
        ErrorObj (js "Error")
          (js "GitHub API Error: " ++ decimal (status response))
  end.

(** The request [githubFetch] builds: the three headers, nothing being
    passed in [options.headers] by any caller. *)
Definition request (endpoint token : jsstring) (options : RequestInit) : Request :=
  {| url := BASE_URL ++ endpoint;
     method := init_method options;
     headers :=
       [ (js "Authorization", js "token " ++ token);
         (js "Accept", js "application/vnd.github.v3+json");
         (js "Content-Type", js "application/json") ];
     body := init_body options |}.

(** What [githubFetch] makes of the outcome of [fetch]; [inr None] is the
    [null] of a 204 response. *)
Definition settle {T} (out : Fetched T) : Thrown + option T :=
  match out with
  | Rejects e => inl e
  | Resolves response =>
      if negb (ok response) then inl (error_of response)
      else if status response =? 204 then inr None
      else
        match json response with
        | inl e => inl e
        | inr data => inr (Some data)
        end
  end.

(** [githubFetch(endpoint, token, options)] *)
Definition githubFetch (s : Schema) (endpoint token : jsstring)
    (options : RequestInit) : M World (option (Parsed s)) :=
  out <- send s (request endpoint token options) ;;
  fun w => (settle out, w).

Definition getUserRepos (token : jsstring) : M World (option (list Repository)) :=
  githubFetch AsRepositories (js "/user/repos?sort=updated&per_page=100")
    token no_options.

Definition createRepo (token : jsstring) (params : CreateRepoParams)
    : M World (option Repository) :=
  githubFetch AsRepository (js "/user/repos") token
    {| init_method := POST; init_body := CreateRepoBody params |}.

Definition cleanPath (path : jsstring) : jsstring :=
  if startsWith path (js "/") then slice path 1 else path.

Definition getContents (token owner repo path : jsstring)
    : M World (option Contents) :=
  githubFetch AsContents
    (js "/repos/" ++ owner ++ js "/" ++ repo ++ js "/contents/" ++ cleanPath path)
    token no_options.

Definition createFile (token : jsstring) (params : CommitParams)
    : M World (option JsVal) :=
  let sha :=
    match cp_sha params with
    | Some s => if truthy s then Some s else None
    | None => None
    end in
  githubFetch AsAny
    (js "/repos/" ++ cp_owner params ++ js "/" ++ cp_repo params
       ++ js "/contents/" ++ cp_path params)
    token
    {| init_method := PUT;
       init_body := CommitBody (cp_message params) (cp_content params) sha |}.

Definition deleteFile (token owner repo path sha message : jsstring)
    : M World (option JsVal) :=
  githubFetch AsAny
    (js "/repos/" ++ owner ++ js "/" ++ repo ++ js "/contents/" ++ path)
    token
    {| init_method := DELETE; init_body := DeleteBody message sha |}.

(** [reader.readAsDataURL(file)] on bytes that could be read: the [data:]
    URL of the File API, media type first, then the base64 of the bytes. *)
Definition readAsDataURL (f : File) (bytes : list byte) : jsstring :=
  js "data:" ++ media_type f ++ js ";base64," ++ Base64.encode bytes.

(** A line terminator, which [.] of a regular expression does not match. *)
Definition line_terminator (c : code_unit) : bool :=
  (c =? 10) || (c =? 13) || (c =? 8232) || (c =? 8233).

Definition comma : code_unit := 44.

(** The group [(.*,)] at the start of [s]: the longest run of characters
    other than line terminators that ends with a comma.  [Some rest] when it
    matches, [rest] being what follows it. *)
Fixpoint after_last_comma (s : jsstring) : option jsstring :=
  match s with
  | [] => None
  | c :: s' =>
      if line_terminator c then None
      else
        match after_last_comma s' with
        | Some rest => Some rest
        | None => if c =? comma then Some s' else None
        end
  end.

(** [s.replace(/^data:(.*,)?/, '')] *)
Definition strip_data_prefix (s : jsstring) : jsstring :=
  if startsWith s (js "data:") then
    let rest := slice s 5 in
    match after_last_comma rest with
    | Some rest' => rest'
    | None => rest
    end
  else s.

(** [if ((encoded.length % 4) > 0) encoded += '='.repeat(4 - (encoded.length % 4))] *)
Definition pad4 (encoded : jsstring) : jsstring :=
  let r := (List.length encoded mod 4)%nat in
  if (0 <? r)%nat then encoded ++ repeat_unit Base64.equals_sign (4 - r)
  else encoded.

(** [toBase64(file)]: rejects with the reader's error event when the file
    cannot be read. *)
Definition toBase64 {S} (f : File) : M S jsstring :=
  match file_bytes f with
  | None => throw NotAnError
  | Some bytes =>
      let encoded := or_else (strip_data_prefix (readAsDataURL f bytes)) [] in
      ret (pad4 encoded)
  end.

End Github.
End Github.

(* ================================================================== *)
(** * components/FileExplorer.tsx *)
(* ================================================================== *)

(** [String.prototype.localeCompare]: the collation of the host, a consistent
    comparison in the sense of ECMA-262: swapping the arguments swaps the sign,
    and the order it gives is transitive. *)
Class Collator := {
  localeCompare : jsstring -> jsstring -> Z;
  localeCompare_swap : forall a b,
    Z.sgn (localeCompare b a) = (- Z.sgn (localeCompare a b))%Z;
  localeCompare_trans : forall a b c,
    (localeCompare a b <= 0)%Z -> (localeCompare b c <= 0)%Z ->
    (localeCompare a c <= 0)%Z
}.

(** [Array.prototype.sort(comparefn)].  The standard leaves the algorithm to
    the engine and requires the result to be ordered by [comparefn] with equal
    elements kept in their order; for a consistent [comparefn] this fixes the
    result, which is the one of this stable insertion sort. *)
Module ArraySort.
Section ArraySort.
Context {A : Type} (comparefn : A -> A -> Z).

Fixpoint insert (x : A) (sorted : list A) : list A :=
  match sorted with
  | [] => [x]
  | y :: rest =>
      if (0 <? comparefn x y)%Z then y :: insert x rest
      else x :: sorted
  end.

Fixpoint sort (l : list A) : list A :=
  match l with
  | [] => []
  | x :: rest => insert x (sort rest)
  end.

End ArraySort.
End ArraySort.

Module FileExplorer.
Section FileExplorer.
Context {H : Host} {C : Collator}.

(** The props of the component. *)
Variable repo : Repository.
Variable token : jsstring.

(** The state cells of the component.  An entry is [None] when it is the
    [null] that [githubFetch] returns for a 204 response. *)
Record State := {
  currentPath : jsstring;
  entries : list (option FileEntry);
  loading : bool;
  selectedFile : option FileEntry;
  fileContent : option jsstring;
  uploading : bool;
  uploadStatus : jsstring;
  isMenuOpen : bool
}.

Definition setCurrentPath (v : jsstring) (s : State) : State :=
  {| currentPath := v; entries := entries s; loading := loading s;
     selectedFile := selectedFile s; fileContent := fileContent s;
     uploading := uploading s; uploadStatus := uploadStatus s;
     isMenuOpen := isMenuOpen s |}.

Definition setEntries (v : list (option FileEntry)) (s : State) : State :=
  {| currentPath := currentPath s; entries := v; loading := loading s;
     selectedFile := selectedFile s; fileContent := fileContent s;
     uploading := uploading s; uploadStatus := uploadStatus s;
     isMenuOpen := isMenuOpen s |}.

Definition setLoading (v : bool) (s : State) : State :=
  {| currentPath := currentPath s; entries := entries s; loading := v;
     selectedFile := selectedFile s; fileContent := fileContent s;
     uploading := uploading s; uploadStatus := uploadStatus s;
     isMenuOpen := isMenuOpen s |}.

Definition setSelectedFile (v : option FileEntry) (s : State) : State :=
  {| currentPath := currentPath s; entries := entries s; loading := loading s;
     selectedFile := v; fileContent := fileContent s;
     uploading := uploading s; uploadStatus := uploadStatus s;
     isMenuOpen := isMenuOpen s |}.

Definition setFileContent (v : option jsstring) (s : State) : State :=
  {| currentPath := currentPath s; entries := entries s; loading := loading s;
     selectedFile := selectedFile s; fileContent := v;
     uploading := uploading s; uploadStatus := uploadStatus s;
     isMenuOpen := isMenuOpen s |}.

Definition setUploading (v : bool) (s : State) : State :=
  {| currentPath := currentPath s; entries := entries s; loading := loading s;
     selectedFile := selectedFile s; fileContent := fileContent s;
     uploading := v; uploadStatus := uploadStatus s;
     isMenuOpen := isMenuOpen s |}.

Definition setUploadStatus (v : jsstring) (s : State) : State :=
  {| currentPath := currentPath s; entries := entries s; loading := loading s;
     selectedFile := selectedFile s; fileContent := fileContent s;
     uploading := uploading s; uploadStatus := v;
     isMenuOpen := isMenuOpen s |}.

Definition setIsMenuOpen (v : bool) (s : State) : State :=
  {| currentPath := currentPath s; entries := entries s; loading := loading s;
     selectedFile := selectedFile s; fileContent := fileContent s;
     uploading := uploading s; uploadStatus := uploadStatus s;
     isMenuOpen := v |}.

(** A handler runs on the state of the component and the world. *)
Definition UI := (State * World)%type.

Definition set (f : State -> State) : M UI unit :=
  modify (fun ui => (f (fst ui), snd ui)).

Definition world {A} (m : M World A) : M UI A :=
  fun ui => let (r, w) := m (snd ui) in (r, (fst ui, w)).

(** The comparison [fetchContents] sorts with: folders first, then files. *)
Definition compare_entries (a b : FileEntry) : Z :=
  if EntryType_eqb (type a) (type b) then localeCompare (name a) (name b)
  else match type a with dir => (-1)%Z | file => 1%Z end.

Definition fetchContents (path : jsstring) : M UI unit :=
  set (setLoading true) ;;
  set (setSelectedFile None) ;;
  set (setFileContent None) ;;
  finally
    (try_catch
       (data <- world (Github.getContents token (owner_login (owner repo))
                         (repo_name repo) path) ;;
        match data with
        | Some (IsArray items) =>
            let sorted := ArraySort.sort compare_entries items in
            set (setEntries (map Some sorted))
        | Some (IsEntry entry) => set (setEntries [Some entry])
        | None => set (setEntries [None])
        end)
       (fun err =>
          world (console_error err) ;;
          set (setEntries [])))
    (set (setLoading false)).

(** [useEffect(() => fetchContents(currentPath), [currentPath, repo.name])]
    after [setCurrentPath(path)]: the effect runs when the path changed. *)
Definition navigate (path : jsstring) : M UI unit :=
  before <- gets (fun ui => currentPath (fst ui)) ;;
  set (setCurrentPath path) ;;
  if eqb before path then ret tt else fetchContents path.

(** [data.content.replace(/\n/g, '')] *)
Definition remove_newlines (s : jsstring) : jsstring :=
  filter (fun c => negb (c =? 10)) s.

(** The bytes [handleEntryClick] rebuilds from the content of an entry:
    [bytes[i] = binaryString.charCodeAt(i)] over [atob] of the content. *)
Definition content_bytes (content : jsstring) : option (list byte) :=
  match Base64.atob (remove_newlines content) with
  | Some binaryString => Some (map to_uint8 binaryString)
  | None => None
  end.

(** The text [handleEntryClick] shows for the content of an entry; [None]
    when [atob] throws. *)
Definition decode_content (content : jsstring) : option jsstring :=
  match content_bytes content with
  | Some bytes => Some (Utf8.TextDecoder_decode bytes)
  | None => None
  end.

Definition handleEntryClick (entry : FileEntry) : M UI unit :=
  match type entry with
  | dir => navigate (path entry)
  | file =>
      set (setSelectedFile (Some entry)) ;;
      set (setLoading true) ;;
      finally
        (try_catch
           (data <- world (Github.getContents token (owner_login (owner repo))
                             (repo_name repo) (path entry)) ;;
            match data with
            | None => throw (TypeError ReadOfNull)
            | Some (IsArray _) =>
                set (setFileContent
                       (Some (js "File is too large to display or is binary.")))
            | Some (IsEntry data) =>
                match content data with
                | Some text =>
                    if truthy text then
                      match decode_content text with
                      | Some decoded => set (setFileContent (Some decoded))
                      | None =>
                          throw (ErrorObj (js "InvalidCharacterError") [])
                      end
                    else
                      set (setFileContent
                             (Some (js "File is too large to display or is binary.")))
                | None =>
                    set (setFileContent
                           (Some (js "File is too large to display or is binary.")))
                end
            end)
           (fun _ => set (setFileContent (Some (js "Error loading content.")))))
        (set (setLoading false))
  end.

(** The path a file is committed at. *)
Definition finalPath (currentPath : jsstring) (f : File) : jsstring :=
  let relativePath := or_else (webkitRelativePath f) (file_name f) in
  if truthy currentPath then currentPath ++ js "/" ++ relativePath
  else relativePath.

(** The commit [handleFileUpload] asks for, for a file with its base64. *)
Definition commit_of (currentPath : jsstring) (f : File) (content : jsstring)
    : CommitParams :=
  {| cp_owner := owner_login (owner repo);
     cp_repo := repo_name repo;
     cp_path := finalPath currentPath f;
     cp_message := js "Add " ++ file_name f ++ js " via GitLite";
     cp_content := content;
     cp_sha := None |}.

(** The body of [for (let i = 0; i < files.length; i++)]. *)
Definition upload_one (currentPath : jsstring) (f : File) : M UI unit :=
  set (setUploadStatus (js "Uploading " ++ file_name f ++ js "...")) ;;
  content <- Github.toBase64 f ;;
  world (Github.createFile token (commit_of currentPath f content)) ;;
  ret tt.

Fixpoint upload_loop (currentPath : jsstring) (files : list File) : M UI unit :=
  match files with
  | [] => ret tt
  | f :: rest => upload_one currentPath f ;; upload_loop currentPath rest
  end.

(** [handleFileUpload(event)] for [event.target.files = files]; [null] and
    the empty list are the same to it.  The call of [fetchContents] is not
    awaited: its updates and the one of the [finally] block touch different
    cells, so running it first gives the same state.  The timer that clears
    the status two seconds later is [upload_status_timeout]. *)
Definition handleFileUpload (files : list File) : M UI unit :=
  match files with
  | [] => ret tt
  | _ :: _ =>
      set (setUploading true) ;;
      set (setIsMenuOpen false) ;;
      currentPath <- gets (fun ui => currentPath (fst ui)) ;;
      finally
        (try_catch
           (upload_loop currentPath files ;;
            set (setUploadStatus (js "Upload complete!")) ;;
            fetchContents currentPath)
           (fun err =>
              world (alert (js "Upload failed: " ++ message_text err)) ;;
              set (setUploadStatus [])))
        (set (setUploading false))
  end.

Definition upload_status_timeout : M UI unit := set (setUploadStatus []).

(** [handleDelete()], [answer] being what the user answers to [confirm]. *)
Definition handleDelete (answer : bool) : M UI unit :=
  selected <- gets (fun ui => selectedFile (fst ui)) ;;
  match selected with
  | None => ret tt
  | Some f =>
      if negb answer then ret tt
      else
        set (setLoading true) ;;
        currentPath <- gets (fun ui => currentPath (fst ui)) ;;
        try_catch
          (world (Github.deleteFile token (owner_login (owner repo))
                    (repo_name repo) (path f) (sha f)
                    (js "Delete " ++ name f)) ;;
           set (setSelectedFile None) ;;
           fetchContents currentPath)
          (fun err =>
             world (alert (js "Delete failed: " ++ message_text err)) ;;
             set (setLoading false))
  end.

(** What the component renders. *)
Inductive View :=
| Loading
| ViewingFile (path : jsstring) (entry : FileEntry) (shown : option jsstring)
| Empty (path : jsstring)
| Listing (path : jsstring) (items : list FileEntry)
| RenderThrows.

Definition view (s : State) : View :=
  if loading s then Loading
  else
    match selectedFile s with
    | Some entry => ViewingFile (currentPath s) entry (fileContent s)
    | None =>
        match entries s with
        | [] => Empty (currentPath s)
        | items =>
            match sequence items with
            | Some l => Listing (currentPath s) l
            | None => RenderThrows
            end
        end
    end.

End FileExplorer.
End FileExplorer.

(* ================================================================== *)
(** * components/RepoList.tsx *)
(* ================================================================== *)

Module RepoList.

(** [\s] of a regular expression: the white space and the line terminators
    of ECMAScript. *)
Definition whitespace (c : code_unit) : bool :=
  (c =? 9) || (c =? 10) || (c =? 11) || (c =? 12) || (c =? 13) || (c =? 32)
  || (c =? 160) || (c =? 5760) || ((8192 <=? c) && (c <=? 8202))
  || (c =? 8232) || (c =? 8233) || (c =? 8239) || (c =? 8287)
  || (c =? 12288) || (c =? 65279).

Definition hyphen : code_unit := 45.

(** [value.replace(/\s+/g, '-')], read from left to right: a match starts at
    a white space character and takes all those that follow it; [in_match]
    tells that the character before was taken by a match. *)
Fixpoint replace_from (in_match : bool) (value : jsstring) : jsstring :=
  match value with
  | [] => []
  | c :: rest =>
      if whitespace c then
        if in_match then replace_from true rest
        else hyphen :: replace_from true rest
      else c :: replace_from false rest
  end.

Definition replace_whitespace (value : jsstring) : jsstring :=
  replace_from false value.

Section RepoList.
Context {H : Host}.

(** The parent's state and the callback the parent passes. *)
Variable P : Type.
Variable onCreateRepo : jsstring -> bool -> M (P * World) unit.

Record State := {
  searchTerm : jsstring;
  showCreateModal : bool;
  newRepoName : jsstring;
  newRepoPrivate : bool;
  creating : bool
}.

Definition initial : State :=
  {| searchTerm := []; showCreateModal := false; newRepoName := [];
     newRepoPrivate := false; creating := false |}.

Definition setSearchTerm (v : jsstring) (s : State) : State :=
  {| searchTerm := v; showCreateModal := showCreateModal s;
     newRepoName := newRepoName s; newRepoPrivate := newRepoPrivate s;
     creating := creating s |}.

Definition setShowCreateModal (v : bool) (s : State) : State :=
  {| searchTerm := searchTerm s; showCreateModal := v;
     newRepoName := newRepoName s; newRepoPrivate := newRepoPrivate s;
     creating := creating s |}.

Definition setNewRepoName (v : jsstring) (s : State) : State :=
  {| searchTerm := searchTerm s; showCreateModal := showCreateModal s;
     newRepoName := v; newRepoPrivate := newRepoPrivate s;
     creating := creating s |}.

Definition setNewRepoPrivate (v : bool) (s : State) : State :=
  {| searchTerm := searchTerm s; showCreateModal := showCreateModal s;
     newRepoName := newRepoName s; newRepoPrivate := v;
     creating := creating s |}.

Definition setCreating (v : bool) (s : State) : State :=
  {| searchTerm := searchTerm s; showCreateModal := showCreateModal s;
     newRepoName := newRepoName s; newRepoPrivate := newRepoPrivate s;
     creating := v |}.

Definition UI := (State * (P * World))%type.

Definition set (f : State -> State) : M UI unit :=
  modify (fun ui => (f (fst ui), snd ui)).

Definition outside {A} (m : M (P * World) A) : M UI A :=
  fun ui => let (r, o) := m (snd ui) in (r, (fst ui, o)).

Definition alert_user (text : jsstring) : M UI unit :=
  outside (fun o => let (r, w) := alert text (snd o) in (r, (fst o, w))).

(** [handleCreate(e)] *)
Definition handleCreate : M UI unit :=
  name <- gets (fun ui => newRepoName (fst ui)) ;;
  isPrivate <- gets (fun ui => newRepoPrivate (fst ui)) ;;
  if negb (truthy name) then ret tt
  else
    set (setCreating true) ;;
    finally
      (try_catch
         (outside (onCreateRepo name isPrivate) ;;
          set (setShowCreateModal false) ;;
          set (setNewRepoName []))
         (fun _ => alert_user (js "Failed to create repository")))
      (set (setCreating false)).

(** What the user does in the component. *)
Inductive Event :=
| ChangeSearch (value : jsstring)
| OpenModal
| ChangeName (value : jsstring)
| ChangePrivate (checked : bool)
| Cancel
| Submit.

Definition handle (e : Event) : M UI unit :=
  match e with
  | ChangeSearch value => set (setSearchTerm value)
  | OpenModal => set (setShowCreateModal true)
  | ChangeName value => set (setNewRepoName (replace_whitespace value))
  | ChangePrivate checked => set (setNewRepoPrivate checked)
  | Cancel => set (setShowCreateModal false)
  | Submit => handleCreate
  end.

(** A session: the events one after the other.  No handler lets an
    exception out. *)
Fixpoint session (events : list Event) (ui : UI) : UI :=
  match events with
  | [] => ui
  | e :: rest => session rest (snd (handle e ui))
  end.

End RepoList.
End RepoList.

(* ================================================================== *)
(** * App.tsx *)
(* ================================================================== *)

Module App.
Section App.
Context {H : Host}.

Record GitHubUser := {
  login : jsstring;
  id : N;
  avatar_url : jsstring;
  user_name : jsstring;
  email : option jsstring
}.

Record AuthState := {
  user : option GitHubUser;
  token : option jsstring;
  isAuthenticated : bool;
  auth_loading : bool
}.

(** The state cells of [AppContent].  A repository is [None] when it is the
    [null] that [githubFetch] returns for a 204 response. *)
Record State := {
  authData : AuthState;
  repos : list (option Repository);
  selectedRepo : option Repository;
  repoLoading : bool
}.

Definition setRepos (v : list (option Repository)) (s : State) : State :=
  {| authData := authData s; repos := v;
     selectedRepo := selectedRepo s; repoLoading := repoLoading s |}.

Definition UI := (State * World)%type.

Definition set (f : State -> State) : M UI unit :=
  modify (fun ui => (f (fst ui), snd ui)).

Definition world {A} (m : M World A) : M UI A :=
  fun ui => let (r, w) := m (snd ui) in (r, (fst ui, w)).

(** The parameters [handleCreateRepo] creates a repository with. *)
Definition create_params (name : jsstring) (isPrivate : bool) : CreateRepoParams :=
  {| cr_name := name;
     cr_private := isPrivate;
     cr_description := Some (js "Created via GitLite Mobile");
     cr_auto_init := Some true |}.

Definition handleCreateRepo (name : jsstring) (isPrivate : bool) : M UI unit :=
  auth <- gets (fun ui => authData (fst ui)) ;;
  match token auth with
  | None => ret tt
  | Some tok =>
      if negb (truthy tok) then ret tt
      else
        repos <- gets (fun ui => repos (fst ui)) ;;
        try_catch
          (newRepo <- world (Github.createRepo tok (create_params name isPrivate)) ;;
           set (setRepos (newRepo :: repos)))
          (fun error =>
             world (console_error error) ;;
             throw error)
  end.

(** The repository list as [AppContent] renders it: [RepoList] with
    [onCreateRepo = handleCreateRepo]. *)
Definition repo_list_session (events : list RepoList.Event)
    (ui : RepoList.UI State) : RepoList.UI State :=
  RepoList.session State handleCreateRepo events ui.

End App.
End App.

(* ================================================================== *)
(** * A scripted remote and the code unit order, to run the client on *)
(* ================================================================== *)

Module Scripted.

(** What the remote answers to the next request, at each type a call site
    may read it. *)
Record Reply := {
  repositories : Fetched (list Repository);
  repository : Fetched Repository;
  contents : Fetched Contents;
  any : Fetched JsVal
}.

Definition reply_at (r : Reply) (s : Schema) : Fetched (Parsed s) :=
  match s return Fetched (Parsed s) with
  | AsRepositories => repositories r
  | AsRepository => repository r
  | AsContents => contents r
  | AsAny => any r
  end.

Definition network_failure : Thrown :=
  ErrorObj (js "TypeError") (js "Failed to fetch").

(** The network answers with the replies of a script, in order, and fails
    when the script is over. *)
#[export] Instance host : Host := {|
  Net := list Reply;
  fetch := fun s _ script =>
    match script with
    | [] => (Rejects network_failure, [])
    | r :: rest => (reply_at r s, rest)
    end;
  engine_message := fun k =>
    match k with
    | ReadOfNull => js "Cannot read properties of null"
    | NoPrimitiveValue => js "Cannot convert object to primitive value"
    end
|}.

(** A reply with one status and one body, whatever the call site. *)
Definition respond {T} (code : N) (err : option JsVal) (data : Thrown + T)
    : Fetched T :=
  Resolves {| status := code; json_error := err; json := data |}.

Definition no_json : Thrown :=
  ErrorObj (js "SyntaxError") (js "Unexpected end of JSON input").

(** An error response whose body is the JSON object [{"message": text}]. *)
Definition failure (code : N) (text : jsstring) : Reply :=
  let err := Some (JObj [(js "message", JStr text)]) in
  {| repositories := respond code err (inl no_json);
     repository := respond code err (inl no_json);
     contents := respond code err (inl no_json);
     any := respond code err (inl no_json) |}.

(** An error response whose body is not JSON. *)
Definition failure_without_json (code : N) : Reply :=
  {| repositories := respond code None (inl no_json);
     repository := respond code None (inl no_json);
     contents := respond code None (inl no_json);
     any := respond code None (inl no_json) |}.

(** A successful response to a commit or to a delete. *)
Definition committed (code : N) : Reply :=
  {| repositories := respond code None (inl no_json);
     repository := respond code None (inl no_json);
     contents := respond code None (inl no_json);
     any := respond code None (inr (JObj [])) |}.

(** A successful response to a listing. *)
Definition listing (items : list FileEntry) : Reply :=
  {| repositories := respond 200 None (inl no_json);
     repository := respond 200 None (inl no_json);
     contents := respond 200 None (inr (IsArray items));
     any := respond 200 None (inr (JArr [])) |}.

(** A successful response to the creation of a repository. *)
Definition created (r : Repository) : Reply :=
  {| repositories := respond 201 None (inl no_json);
     repository := respond 201 None (inr r);
     contents := respond 201 None (inl no_json);
     any := respond 201 None (inr (JObj [])) |}.

Definition start (script : list Reply) : World :=
  {| net := script; sent := []; alerts := []; console := [] |}.

(** The order of the code units. *)
Fixpoint compare_units (a b : jsstring) : Z :=
  match a, b with
  | [], [] => 0%Z
  | [], _ :: _ => (-1)%Z
  | _ :: _, [] => 1%Z
  | c :: a', d :: b' =>
      if c <? d then (-1)%Z
      else if d <? c then 1%Z
      else compare_units a' b'
  end.

Lemma compare_units_swap a : forall b,
  Z.sgn (compare_units b a) = (- Z.sgn (compare_units a b))%Z.
Proof.
  induction a as [|c a IH]; intros [|d b]; simpl; try reflexivity.
  destruct (N.ltb_spec c d), (N.ltb_spec d c); try reflexivity; try lia.
  apply IH.
Qed.

Lemma compare_units_trans a : forall b c,
  (compare_units a b <= 0)%Z -> (compare_units b c <= 0)%Z ->
  (compare_units a c <= 0)%Z.
Proof.
  induction a as [|x a IH]; intros [|y b] [|z c]; simpl; try lia.
  destruct (N.ltb_spec x y), (N.ltb_spec y x), (N.ltb_spec y z),
    (N.ltb_spec z y), (N.ltb_spec x z), (N.ltb_spec z x); try lia.
  apply IH.
Qed.

#[export] Instance collator : Collator := {|
  localeCompare := compare_units;
  localeCompare_swap := compare_units_swap;
  localeCompare_trans := compare_units_trans
|}.

(** A collation that compares letters without regard to their case before it
    looks at the case, small letters first, as the collations of browsers do
    for English names. *)
Definition fold_case (c : code_unit) : code_unit :=
  if (65 <=? c) && (c <=? 90) then c + 32 else c.

Definition compare_alphabetical (a b : jsstring) : Z :=
  let first := compare_units (map fold_case a) (map fold_case b) in
  if (first =? 0)%Z then compare_units b a else first.

Lemma compare_units_zero a : forall b, compare_units a b = 0%Z -> a = b.
Proof.
  induction a as [|c a IH]; intros [|d b]; simpl; try reflexivity;
    try discriminate.
  destruct (N.ltb_spec c d); [discriminate|].
  destruct (N.ltb_spec d c); [discriminate|].
  intros E. f_equal; [lia|apply IH, E].
Qed.

Lemma compare_alphabetical_swap a b :
  Z.sgn (compare_alphabetical b a) = (- Z.sgn (compare_alphabetical a b))%Z.
Proof.
  unfold compare_alphabetical.
  pose proof (compare_units_swap (map fold_case a) (map fold_case b)) as Hf.
  pose proof (compare_units_swap b a) as Hu.
  destruct (Z.eqb_spec (compare_units (map fold_case a) (map fold_case b)) 0);
    destruct (Z.eqb_spec (compare_units (map fold_case b) (map fold_case a)) 0);
    lia.
Qed.

Lemma compare_alphabetical_trans a b c :
  (compare_alphabetical a b <= 0)%Z -> (compare_alphabetical b c <= 0)%Z ->
  (compare_alphabetical a c <= 0)%Z.
Proof.
  unfold compare_alphabetical.
  pose proof (compare_units_trans (map fold_case a) (map fold_case b)
                (map fold_case c)) as Hf.
  pose proof (compare_units_trans c b a) as Hu.
  pose proof (compare_units_swap (map fold_case a) (map fold_case b)) as Hs.
  pose proof (compare_units_zero (map fold_case a) (map fold_case c)) as Hz.
  destruct (Z.eqb_spec (compare_units (map fold_case a) (map fold_case c)) 0)
    as [E|E].
  - rewrite (Hz E) in *.
    destruct (Z.eqb_spec (compare_units (map fold_case c) (map fold_case b)) 0);
      destruct (Z.eqb_spec (compare_units (map fold_case b) (map fold_case c)) 0);
      lia.
  - destruct (Z.eqb_spec (compare_units (map fold_case a) (map fold_case b)) 0);
      destruct (Z.eqb_spec (compare_units (map fold_case b) (map fold_case c)) 0);
      lia.
Qed.

Definition alphabetical : Collator := {|
  localeCompare := compare_alphabetical;
  localeCompare_swap := compare_alphabetical_swap;
  localeCompare_trans := compare_alphabetical_trans
|}.

Definition entry (kind : EntryType) (n : string) : FileEntry :=
  {| name := js n; path := js n; sha := js n; size := 1;
     entry_url := []; html_url := []; type := kind;
     content := None; encoding := None |}.

Definition demo : Repository :=
  {| repo_id := 1; repo_name := js "demo"; full_name := js "octocat/demo";
     repo_private := false; description := None; updated_at := [];
     default_branch := js "main";
     owner := {| owner_login := js "octocat"; owner_avatar_url := [] |} |}.

Definition text_file (n : string) (bytes : list byte) : File :=
  {| file_name := js n; webkitRelativePath := [];
     media_type := js "text/plain"; file_bytes := Some bytes |}.

End Scripted.

(* ================================================================== *)
(** * Properties of the remote API client *)
(* ================================================================== *)

Section Client.
Context {H : Host}.

Lemma send_run (s : Schema) (req : Request) (w : World) :
  send s req w =
    (inr (fst (fetch s req (net w))),
     {| net := snd (fetch s req (net w)); sent := sent w ++ [req];
        alerts := alerts w; console := console w |}).
Proof. unfold send. destruct (fetch s req (net w)); reflexivity. Qed.

(** One call of [githubFetch] sends one request and touches nothing else. *)
Lemma githubFetch_run (s : Schema) (endpoint token : jsstring)
    (options : Github.RequestInit) (w : World) :
  Github.githubFetch s endpoint token options w =
    (Github.settle (fst (fetch s (Github.request endpoint token options) (net w))),
     {| net := snd (fetch s (Github.request endpoint token options) (net w));
        sent := sent w ++ [Github.request endpoint token options];
        alerts := alerts w; console := console w |}).
Proof. unfold Github.githubFetch, bind. rewrite send_run. reflexivity. Qed.

Lemma cleanPath_slash (p : jsstring) : Github.cleanPath (js "/" ++ p) = p.
Proof. reflexivity. Qed.

Lemma cleanPath_other (c : code_unit) (p : jsstring) :
  c <> 47 -> Github.cleanPath (c :: p) = c :: p.
Proof.
  intros Hc. unfold Github.cleanPath. simpl.
  destruct (N.eqb_spec c 47) as [E|E]; [contradiction|reflexivity].
Qed.

Lemma cleanPath_empty : Github.cleanPath [] = [].
Proof. reflexivity. Qed.

End Client.

(** C3. For every path, [getContents] called with a slash before the path
    sends the request for the path without that slash; called with
    ["/src/index.ts"] and with ["src/index.ts"] it does the same thing, which
    is to request the remote path ["src/index.ts"]. *)
Theorem getContents_strips_leading_slash :
  forall (H : Host) (token owner repo p : jsstring) (w : World),
    sent (snd (Github.getContents token owner repo (js "/" ++ p) w)) =
      sent w ++
      [Github.request (js "/repos/" ++ owner ++ js "/" ++ repo ++ js "/contents/" ++ p)
         token Github.no_options]
    /\ Github.getContents token owner repo (js "/src/index.ts") w =
       Github.getContents token owner repo (js "src/index.ts") w
    /\ sent (snd (Github.getContents token owner repo (js "src/index.ts") w)) =
       sent w ++
       [Github.request
          (js "/repos/" ++ owner ++ js "/" ++ repo ++ js "/contents/" ++ js "src/index.ts")
          token Github.no_options].
Proof.
  intros H token owner repo p w. unfold Github.getContents.
  rewrite !githubFetch_run, cleanPath_slash. simpl snd. simpl sent.
  split; [reflexivity|]. split; reflexivity.
Qed.

(** C4, as the specification states it, fails: a 500 response whose body is
    not JSON makes [githubFetch] throw an error whose message is
    ["GitHub API Error: 500"], not ["API Error: 500"]. *)
Lemma generic_message_is_not_API_Error :
  exists e : Thrown,
    fst (Github.githubFetch (H := Scripted.host) AsAny (js "/user/repos") (js "t")
           Github.no_options
           (Scripted.start [Scripted.failure_without_json 500])) = inl e
    /\ message_text e = js "GitHub API Error: 500"
    /\ message_text e <> js "API Error: " ++ decimal 500.
Proof.
  eexists. split; [reflexivity|]. split; [reflexivity|]. discriminate.
Qed.

(** C4, amended.  For every response that is not 2xx, [githubFetch] throws
    [error_of response], an [Error] whose message is the [message] field of
    the JSON body when the body is an object whose [message] is a string that
    is not empty, and is ["GitHub API Error: <status>"] when the body is not
    JSON, or is a JSON value other than [null] whose [message] is absent or
    falsy. *)
Theorem githubFetch_error_message :
  forall (H : Host) (s : Schema) (endpoint token : jsstring)
         (options : Github.RequestInit) (w : World)
         (response : Response (Parsed s)) (n : Net),
    fetch s (Github.request endpoint token options) (net w) = (Resolves response, n) ->
    ok response = false ->
    fst (Github.githubFetch s endpoint token options w) = inl (Github.error_of response)
    /\ (forall fields text,
          json_error response = Some (JObj fields) ->
          assoc (js "message") fields = Some (JStr text) ->
          text <> [] ->
          Github.error_of response = ErrorObj (js "Error") text)
    /\ (json_error response = None ->
          Github.error_of response =
            ErrorObj (js "Error") (js "GitHub API Error: " ++ decimal (status response)))
    /\ (forall v message,
          json_error response = Some v ->
          Github.get_message v = Some message ->
          to_boolean message = false ->
          Github.error_of response =
            ErrorObj (js "Error") (js "GitHub API Error: " ++ decimal (status response))).
Proof.
  intros H s endpoint token options w response n Hfetch Hok.
  rewrite githubFetch_run, Hfetch. simpl. rewrite Hok. simpl.
  split; [reflexivity|]. unfold Github.error_of. repeat split.
  - intros fields text -> . simpl. intros -> Htext. simpl.
    destruct text; [contradiction|reflexivity].
  - intros ->. reflexivity.
  - intros v message -> -> ->. reflexivity.
Qed.

(** Witness of C4: a 409 response whose body is [{"message": "Conflict"}]. *)
Lemma githubFetch_error_message_witness :
  fst (Github.githubFetch (H := Scripted.host) AsAny (js "/user/repos") (js "t")
         Github.no_options (Scripted.start [Scripted.failure 409 (js "Conflict")]))
    = inl (ErrorObj (js "Error") (js "Conflict")).
Proof.
  exact (proj1 (githubFetch_error_message Scripted.host AsAny (js "/user/repos")
                  (js "t") Github.no_options
                  (Scripted.start [Scripted.failure 409 (js "Conflict")])
                  _ _ eq_refl eq_refl)).
Defined.

Section Padding.

Lemma or_else_empty (s : jsstring) : or_else s [] = s.
Proof. destruct s; reflexivity. Qed.

(** What [pad4] appends, and that the result has a length that 4 divides. *)
Lemma pad4_spec (encoded : jsstring) :
  Github.pad4 encoded =
    encoded ++ repeat Base64.equals_sign ((4 - List.length encoded mod 4) mod 4)
  /\ (List.length (Github.pad4 encoded) mod 4 = 0)%nat.
Proof.
  unfold Github.pad4, repeat_unit.
  pose proof (Nat.mod_upper_bound (List.length encoded) 4 ltac:(lia)) as Hr.
  pose proof (Nat.div_mod_eq (List.length encoded) 4) as Hd.
  destruct (Nat.ltb_spec 0 (List.length encoded mod 4)) as [Hpos|Hzero].
  - rewrite (Nat.mod_small (4 - List.length encoded mod 4) 4) by lia.
    split; [reflexivity|].
    rewrite length_app, repeat_length.
    replace (List.length encoded + (4 - List.length encoded mod 4))%nat
      with (0 + (List.length encoded / 4 + 1) * 4)%nat by lia.
    rewrite Nat.Div0.mod_add. reflexivity.
  - assert (E : (List.length encoded mod 4 = 0)%nat) by lia.
    split; [|exact E]. rewrite E. simpl. rewrite app_nil_r. reflexivity.
Qed.

End Padding.

(** C10. For every file that can be read, [toBase64] resolves with the data
    URL of the file without its prefix, followed by as many [=] as it takes
    to reach the next multiple of 4 (none when the length is one), so the
    length of the result is a multiple of 4; a file that cannot be read makes
    it reject. *)
Theorem toBase64_length_multiple_of_4 :
  forall (S : Type) (f : File) (st : S),
    match file_bytes f with
    | Some bytes =>
        let stripped := Github.strip_data_prefix (Github.readAsDataURL f bytes) in
        let missing := ((4 - List.length stripped mod 4) mod 4)%nat in
        Github.toBase64 f st = (inr (stripped ++ repeat Base64.equals_sign missing), st)
        /\ (List.length (stripped ++ repeat Base64.equals_sign missing) mod 4 = 0)%nat
    | None => Github.toBase64 f st = (inl NotAnError, st)
    end.
Proof.
  intros S f st. unfold Github.toBase64.
  destruct (file_bytes f) as [bytes|]; [|reflexivity].
  cbv zeta. rewrite or_else_empty.
  destruct (pad4_spec (Github.strip_data_prefix (Github.readAsDataURL f bytes)))
    as [E L].
  rewrite <- E. split; [reflexivity|exact L].
Qed.

(* ================================================================== *)
(** * Properties of the repository browser *)
(* ================================================================== *)

Ltac run_monad :=
  unfold FileExplorer.set, FileExplorer.world, App.set, App.world,
    bind, ret, throw, modify, gets, try_catch, finally; simpl.

Section Browser.
Context {H : Host} {C : Collator}.
Variable repo : Repository.
Variable token : jsstring.

Import FileExplorer.


(** The request of [getContents] for a path of the repository. *)
Definition contents_request (path : jsstring) : Request :=
  Github.request
    (js "/repos/" ++ owner_login (owner repo) ++ js "/" ++ repo_name repo
       ++ js "/contents/" ++ Github.cleanPath path)
    token Github.no_options.

(** The request of [deleteFile] for an entry. *)
Definition delete_request (f : FileEntry) : Request :=
  Github.request
    (js "/repos/" ++ owner_login (owner repo) ++ js "/" ++ repo_name repo
       ++ js "/contents/" ++ path f)
    token
    {| Github.init_method := DELETE;
       Github.init_body := DeleteBody (js "Delete " ++ name f) (sha f) |}.

(** The request of [createFile] for an uploaded file and its base64. *)
Definition commit_request (currentPath : jsstring) (f : File) (content : jsstring)
    : Request :=
  Github.request
    (js "/repos/" ++ owner_login (owner repo) ++ js "/" ++ repo_name repo
       ++ js "/contents/" ++ finalPath currentPath f)
    token
    {| Github.init_method := PUT;
       Github.init_body :=
         CommitBody (js "Add " ++ file_name f ++ js " via GitLite") content None |}.

(** The world after a request got its answer. *)
Definition answered (s : Schema) (req : Request) (w : World) : World :=
  {| net := snd (fetch s req (net w)); sent := sent w ++ [req];
     alerts := alerts w; console := console w |}.

Definition answer (s : Schema) (req : Request) (w : World)
    : Thrown + option (Parsed s) :=
  Github.settle (fst (fetch s req (net w))).

(** The entries [fetchContents] stores for an outcome of [getContents]. *)
Definition listed (data : Thrown + option Contents) : list (option FileEntry) :=
  match data with
  | inl _ => []
  | inr (Some (IsArray items)) =>
      map Some (ArraySort.sort compare_entries items)
  | inr (Some (IsEntry entry)) => [Some entry]
  | inr None => [None]
  end.

Definition logged (data : Thrown + option Contents) (w : World) : World :=
  match data with
  | inl err =>
      {| net := net w; sent := sent w; alerts := alerts w;
         console := console w ++ [err] |}
  | inr _ => w
  end.

(** [fetchContents] always returns; it sends one request and stores what
    came back. *)
Lemma fetchContents_run (p : jsstring) (st : State) (w : World) :
  fetchContents repo token p (st, w) =
    (inr tt,
     ({| currentPath := currentPath st;
         entries := listed (answer AsContents (contents_request p) w);
         loading := false;
         selectedFile := None;
         fileContent := None;
         uploading := uploading st;
         uploadStatus := uploadStatus st;
         isMenuOpen := isMenuOpen st |},
      logged (answer AsContents (contents_request p) w)
        (answered AsContents (contents_request p) w))).
Proof.
  unfold FileExplorer.fetchContents, Github.getContents.
  run_monad. rewrite githubFetch_run.
  unfold answer, answered, contents_request.
  destruct (Github.settle _) as [err|[[items|entry]|]]; reflexivity.
Qed.

Lemma deleteFile_run (f : FileEntry) (w : World) :
  Github.deleteFile token (owner_login (owner repo)) (repo_name repo)
    (path f) (sha f) (js "Delete " ++ name f) w
  = (answer AsAny (delete_request f) w, answered AsAny (delete_request f) w).
Proof. unfold Github.deleteFile. rewrite githubFetch_run. reflexivity. Qed.

Lemma createFile_run (cp : jsstring) (f : File) (content : jsstring) (w : World) :
  Github.createFile token (commit_of repo cp f content) w
  = (answer AsAny (commit_request cp f content) w,
     answered AsAny (commit_request cp f content) w).
Proof. unfold Github.createFile. rewrite githubFetch_run. reflexivity. Qed.

Lemma view_ViewingFile (st : State) (p : jsstring) (f : FileEntry)
    (shown : option jsstring) :
  view st = ViewingFile p f shown ->
  loading st = false /\ selectedFile st = Some f
  /\ currentPath st = p /\ fileContent st = shown.
Proof.
  unfold view. destruct (loading st); [discriminate|].
  destruct (selectedFile st) as [e|].
  - intros E. inversion E. auto.
  - destruct (entries st); [discriminate|].
    destruct (sequence _); discriminate.
Qed.

(** C5. When [handleDelete] is confirmed in the state that shows a file:
    if [deleteFile] fails, the state is left as it was, still showing that
    file, and an alert tells the failure; if it succeeds, the selected file
    is cleared and the current path is fetched again, with the delete and
    the listing as the two requests sent. *)
Theorem handleDelete_failure_keeps_file :
  forall (st : State) (w : World) (p : jsstring) (f : FileEntry)
         (shown : option jsstring),
    view st = ViewingFile p f shown ->
    let w1 := answered AsAny (delete_request f) w in
    match answer AsAny (delete_request f) w with
    | inl err =>
        handleDelete repo token true (st, w) =
          (inr tt,
           (st,
            {| net := net w1; sent := sent w ++ [delete_request f];
               alerts := alerts w ++ [js "Delete failed: " ++ message_text err];
               console := console w |}))
    | inr _ =>
        exists (st' : State) (w' : World),
          handleDelete repo token true (st, w) = (inr tt, (st', w'))
          /\ selectedFile st' = None
          /\ loading st' = false
          /\ currentPath st' = p
          /\ entries st' = listed (answer AsContents (contents_request p) w1)
          /\ sent w' = sent w ++ [delete_request f; contents_request p]
          /\ alerts w' = alerts w
          /\ forall e c, view st' <> ViewingFile p e c
    end.
Proof.
  intros st w p f shown Hview w1.
  destruct (view_ViewingFile _ _ _ _ Hview) as (Hl & Hs & Hp & Hc).
  destruct (answer AsAny (delete_request f) w) as [err|data] eqn:Hans.
  - unfold FileExplorer.handleDelete. run_monad. rewrite Hs. simpl.
    rewrite deleteFile_run, Hans. simpl.
    f_equal. f_equal.
    destruct st; simpl in *; subst; reflexivity.
  - eexists. eexists. split.
    + unfold FileExplorer.handleDelete. run_monad. rewrite Hs. simpl.
      rewrite deleteFile_run, Hans. simpl.
      rewrite fetchContents_run. reflexivity.
    + simpl. rewrite Hp. repeat split.
      * unfold logged. destruct (answer AsContents _ _); simpl;
          rewrite <- app_assoc; reflexivity.
      * unfold logged. destruct (answer AsContents _ _); reflexivity.
      * intros e c. unfold view. simpl.
        destruct (listed _) as [|[a|] l]; [discriminate| |discriminate].
        destruct (sequence l); discriminate.
Qed.

(** ** The upload queue *)

(** [toBase64] does not look at the state it runs in. *)
Lemma toBase64_any_state (S : Type) (f : File) (st : S) :
  Github.toBase64 f st = (fst (Github.toBase64 f tt), st).
Proof. unfold Github.toBase64. destruct (file_bytes f); reflexivity. Qed.

Lemma upload_one_run (cp : jsstring) (f : File) (st : State) (w : World) :
  upload_one repo token cp f (st, w) =
    let st1 := setUploadStatus (js "Uploading " ++ file_name f ++ js "...") st in
    match fst (Github.toBase64 f tt) with
    | inl e => (inl e, (st1, w))
    | inr content =>
        (match answer AsAny (commit_request cp f content) w with
         | inl e => inl e
         | inr _ => inr tt
         end,
         (st1, answered AsAny (commit_request cp f content) w))
    end.
Proof.
  unfold FileExplorer.upload_one. run_monad.
  rewrite toBase64_any_state. simpl.
  destruct (fst (Github.toBase64 f tt)) as [e|content]; [reflexivity|].
  rewrite createFile_run. simpl.
  destruct (answer AsAny _ w); reflexivity.
Qed.

(** The files of a queue are committed one after the other, from a state of
    the network to another: each file is read, its commit is requested and
    the remote accepts it. *)
Inductive Committed (cp : jsstring)
    : list File -> Net -> list Request -> Net -> Prop :=
| Committed_nil (n : Net) : Committed cp [] n [] n
| Committed_cons (f : File) (files : list File) (content : jsstring)
    (data : option JsVal) (n n' : Net) (reqs : list Request) :
    Github.toBase64 f tt = (inr content, tt) ->
    Github.settle (fst (fetch AsAny (commit_request cp f content) n)) = inr data ->
    Committed cp files (snd (fetch AsAny (commit_request cp f content) n)) reqs n' ->
    Committed cp (f :: files) n (commit_request cp f content :: reqs) n'.

(** One request per committed file, in the order of the queue. *)
Lemma Committed_requests (cp : jsstring) (files : list File) (n n' : Net)
    (reqs : list Request) :
  Committed cp files n reqs n' ->
  Forall2 (fun f r => exists content,
             Github.toBase64 f tt = (inr content, tt)
             /\ r = commit_request cp f content) files reqs.
Proof.
  induction 1 as [|f files content data n n' reqs Hread Hok Hrest IH].
  - constructor.
  - constructor; [|exact IH]. exists content. split; [exact Hread|reflexivity].
Qed.

Lemma setUploadStatus_twice (a b : jsstring) (st : State) :
  setUploadStatus a (setUploadStatus b st) = setUploadStatus a st.
Proof. reflexivity. Qed.

(** After the files that are committed, the loop goes on with the rest, the
    requests of the committed files being sent and nothing else changed but
    the status line. *)
Lemma upload_loop_committed (cp : jsstring) (pre : list File) (n n1 : Net)
    (reqs : list Request) :
  Committed cp pre n reqs n1 ->
  forall (rest : list File) (st : State) (w : World),
    net w = n ->
    exists status : jsstring,
      upload_loop repo token cp (pre ++ rest) (st, w) =
        upload_loop repo token cp rest
          (setUploadStatus status st,
           {| net := n1; sent := sent w ++ reqs;
              alerts := alerts w; console := console w |}).
Proof.
  induction 1 as [|f files content data n n' reqs Hread Hok Hrest IH];
    intros rest st w Hn.
  - exists (uploadStatus st). simpl. rewrite app_nil_r.
    destruct st, w; simpl in *; subst; reflexivity.
  - cbn [app FileExplorer.upload_loop]. unfold bind at 1.
    rewrite upload_one_run. cbv zeta.
    rewrite Hread. cbn [fst]. unfold answer. rewrite Hn, Hok.
    destruct (IH rest
                (setUploadStatus (js "Uploading " ++ file_name f ++ js "...") st)
                (answered AsAny (commit_request cp f content) w))
      as [status E].
    { unfold answered. simpl. rewrite Hn. reflexivity. }
    exists status. rewrite E. rewrite setUploadStatus_twice.
    unfold answered. cbn [sent alerts console]. rewrite <- app_assoc.
    reflexivity.
Qed.

(** The loop stops at a file whose commit fails. *)
Lemma upload_loop_fails (cp : jsstring) (f : File) (post : list File)
    (content : jsstring) (err : Thrown) (st : State) (w : World) :
  Github.toBase64 f tt = (inr content, tt) ->
  answer AsAny (commit_request cp f content) w = inl err ->
  upload_loop repo token cp (f :: post) (st, w) =
    (inl err,
     (setUploadStatus (js "Uploading " ++ file_name f ++ js "...") st,
      answered AsAny (commit_request cp f content) w)).
Proof.
  intros Hread Hfail. cbn [FileExplorer.upload_loop]. unfold bind at 1.
  rewrite upload_one_run. cbv zeta. rewrite Hread. cbn [fst].
  rewrite Hfail. reflexivity.
Qed.

(** [handleFileUpload] on a queue that is not empty, from what the loop
    does. *)
Lemma handleFileUpload_run (files : list File) (st : State) (w : World) :
  files <> [] ->
  handleFileUpload repo token files (st, w) =
    match upload_loop repo token (currentPath st) files
            (setIsMenuOpen false (setUploading true st), w) with
    | (inl err, (st1, w1)) =>
        (inr tt,
         (setUploading false (setUploadStatus [] st1),
          {| net := net w1; sent := sent w1;
             alerts := alerts w1 ++ [js "Upload failed: " ++ message_text err];
             console := console w1 |}))
    | (inr _, (st1, w1)) =>
        (inr tt,
         (setUploading false
            (fst (snd (fetchContents repo token (currentPath st)
                         (setUploadStatus (js "Upload complete!") st1, w1)))),
          snd (snd (fetchContents repo token (currentPath st)
                      (setUploadStatus (js "Upload complete!") st1, w1)))))
    end.
Proof.
  intros Hne. unfold FileExplorer.handleFileUpload.
  destruct files as [|f0 tl]; [contradiction|].
  unfold FileExplorer.set, FileExplorer.world, bind, ret, throw, modify, gets,
    try_catch, finally, alert.
  cbn [fst snd].
  change (currentPath (setIsMenuOpen false (setUploading true st)))
    with (currentPath st).
  destruct (upload_loop repo token (currentPath st) (f0 :: tl) _)
    as [[e|[]] [st1 w1]]; cbn [fst snd].
  - reflexivity.
  - rewrite fetchContents_run. reflexivity.
Qed.

(** C2. The files of a queue are handled one after the other.  When the
    files before the k-th are committed and the commit of the k-th fails,
    [handleFileUpload] has sent the requests of those files, in order, then
    the one of the k-th, and none for the files after it; the remote is left
    as the failed request left it; the alert shows the message of that
    failure; the listing is not fetched again. *)
Theorem handleFileUpload_stops_at_first_failure :
  forall (st : State) (w : World) (pre post : list File) (f : File)
         (reqs : list Request) (n1 : Net) (content : jsstring) (err : Thrown),
    Committed (currentPath st) pre (net w) reqs n1 ->
    Github.toBase64 f tt = (inr content, tt) ->
    Github.settle
      (fst (fetch AsAny (commit_request (currentPath st) f content) n1)) = inl err ->
    handleFileUpload repo token (pre ++ f :: post) (st, w) =
      (inr tt,
       ({| currentPath := currentPath st;
           entries := entries st;
           loading := loading st;
           selectedFile := selectedFile st;
           fileContent := fileContent st;
           uploading := false;
           uploadStatus := [];
           isMenuOpen := false |},
        {| net := snd (fetch AsAny (commit_request (currentPath st) f content) n1);
           sent := sent w ++ reqs ++ [commit_request (currentPath st) f content];
           alerts := alerts w ++ [js "Upload failed: " ++ message_text err];
           console := console w |}))
    /\ Forall2 (fun f r => exists content,
                  Github.toBase64 f tt = (inr content, tt)
                  /\ r = commit_request (currentPath st) f content) pre reqs.
Proof.
  intros st w pre post f reqs n1 content err Hpre Hread Hfail.
  split; [|exact (Committed_requests _ _ _ _ _ Hpre)].
  rewrite handleFileUpload_run by (destruct pre; discriminate).
  destruct (upload_loop_committed _ _ _ _ _ Hpre (f :: post)
              (setIsMenuOpen false (setUploading true st)) w eq_refl)
    as [status E].
  rewrite E. clear E.
  rewrite (upload_loop_fails _ _ _ content err) by assumption.
  unfold answered. cbn [net sent alerts console].
  rewrite <- app_assoc. reflexivity.
Qed.

(** The request commits the file [f] under the current path: a PUT to the
    path of that file, with the base64 [toBase64] made of that file as
    content, no hash, and the message ["Add <name> via GitLite"], the name
    being the one of that file. *)
Definition commits_file (cp : jsstring) (f : File) (r : Request) : Prop :=
  exists content : jsstring,
    Github.toBase64 f tt = (inr content, tt)
    /\ r = commit_request cp f content
    /\ method r = PUT
    /\ url r = js "https://api.github.com/repos/" ++ owner_login (owner repo)
                 ++ js "/" ++ repo_name repo ++ js "/contents/" ++ finalPath cp f
    /\ body r = CommitBody (js "Add " ++ file_name f ++ js " via GitLite") content None.

Lemma commit_request_commits (cp : jsstring) (f : File) (content : jsstring) :
  Github.toBase64 f tt = (inr content, tt) ->
  commits_file cp f (commit_request cp f content).
Proof.
  intros Hread. exists content. repeat split. exact Hread.
Qed.

Lemma Committed_commits (cp : jsstring) (files : list File) (n n' : Net)
    (reqs : list Request) :
  Committed cp files n reqs n' -> Forall2 (commits_file cp) files reqs.
Proof.
  induction 1 as [|f files content data n n' reqs Hread Hok Hrest IH].
  - constructor.
  - constructor; [apply commit_request_commits, Hread|exact IH].
Qed.

(** [toBase64] rejects only a file that cannot be read. *)
Lemma toBase64_rejects (f : File) (e : Thrown) :
  fst (Github.toBase64 f tt) = inl e -> file_bytes f = None.
Proof.
  unfold Github.toBase64. destruct (file_bytes f); [discriminate|reflexivity].
Qed.

(** How far the remote lets a queue go, from a state of the network: the
    files that are committed, and then either the end of the queue, or a
    file that cannot be read, or a file whose commit the remote refuses. *)
Lemma queue_progress (cp : jsstring) (files : list File) :
  forall n : Net,
    exists (done : list File) (reqs : list Request) (n1 : Net),
      Committed cp done n reqs n1
      /\ (files = done
          \/ (exists f post, files = done ++ f :: post /\ file_bytes f = None)
          \/ (exists f post content err,
                files = done ++ f :: post
                /\ Github.toBase64 f tt = (inr content, tt)
                /\ Github.settle
                     (fst (fetch AsAny (commit_request cp f content) n1))
                   = inl err)).
Proof.
  induction files as [|f files IH]; intros n.
  - exists [], [], n. split; [constructor|]. left. reflexivity.
  - destruct (fst (Github.toBase64 f tt)) as [e|content] eqn:Hread.
    + exists [], [], n. split; [constructor|]. right. left.
      exists f, files. split; [reflexivity|]. exact (toBase64_rejects f e Hread).
    + assert (Hread' : Github.toBase64 f tt = (inr content, tt)).
      { rewrite (toBase64_any_state unit f tt), Hread. reflexivity. }
      destruct (Github.settle (fst (fetch AsAny (commit_request cp f content) n)))
        as [err|data] eqn:Hans.
      * exists [], [], n. split; [constructor|]. right. right.
        exists f, files, content, err. auto.
      * destruct (IH (snd (fetch AsAny (commit_request cp f content) n)))
          as (done & reqs & n1 & Hdone & Hcases).
        exists (f :: done), (commit_request cp f content :: reqs), n1.
        split; [exact (Committed_cons cp f done content data n n1 reqs
                         Hread' Hans Hdone)|].
        destruct Hcases as [->|[(g & post & -> & Hg)|(g & post & c & err & -> & Hc & Hfail)]].
        -- left. reflexivity.
        -- right. left. exists g, post. auto.
        -- right. right. exists g, post, c, err. auto.
Qed.

(** C6, amended.  [handleFileUpload] commits the files in the order of the
    queue, each with a request of its own whose message is
    ["Add <name> via GitLite"], the name being the one of the file that
    request commits.  The requests it sends are exactly: the commits of the
    files the remote accepts, one after the other; then, when the queue is
    over, the request that fetches the listing again; or, when a file cannot
    be read, nothing more; or, when the remote refuses the commit of a file,
    that commit and nothing more.  An empty queue sends nothing. *)
Theorem handleFileUpload_commit_message :
  forall (files : list File) (st : State) (w : World),
    exists (done : list File) (reqs : list Request) (n1 : Net),
      Committed (currentPath st) done (net w) reqs n1
      /\ Forall2 (commits_file (currentPath st)) done reqs
      /\ ((files = [] /\ done = []
           /\ sent (snd (snd (handleFileUpload repo token files (st, w)))) = sent w)
          \/ (files <> [] /\ files = done
              /\ sent (snd (snd (handleFileUpload repo token files (st, w))))
                 = sent w ++ reqs ++ [contents_request (currentPath st)])
          \/ (exists f post,
                files = done ++ f :: post /\ file_bytes f = None
                /\ sent (snd (snd (handleFileUpload repo token files (st, w))))
                   = sent w ++ reqs)
          \/ (exists f post r err,
                files = done ++ f :: post
                /\ commits_file (currentPath st) f r
                /\ Github.settle (fst (fetch AsAny r n1)) = inl err
                /\ sent (snd (snd (handleFileUpload repo token files (st, w))))
                   = sent w ++ reqs ++ [r])).
Proof.
  intros files st w.
  destruct (queue_progress (currentPath st) files (net w))
    as (done & reqs & n1 & Hdone & Hcases).
  exists done, reqs, n1.
  split; [exact Hdone|]. split; [exact (Committed_commits _ _ _ _ _ Hdone)|].
  destruct Hcases as [->|[(f & post & -> & Hf)|(f & post & content & err & -> & Hread & Hfail)]].
  - assert (Hempty : done = [] \/ done <> [])
      by (destruct done; [left; reflexivity|right; discriminate]).
    destruct Hempty as [Hnil|Hne].
    + left. subst done. repeat split.
    + right. left. split; [exact Hne|]. split; [reflexivity|].
      rewrite handleFileUpload_run by exact Hne.
      destruct (upload_loop_committed _ _ _ _ _ Hdone []
                  (setIsMenuOpen false (setUploading true st)) w eq_refl)
        as [status E].
      rewrite app_nil_r in E. rewrite E. cbn [FileExplorer.upload_loop ret].
      rewrite fetchContents_run. cbn [fst snd].
      unfold logged, answered.
      destruct (answer AsContents _ _); cbn [sent]; rewrite <- app_assoc;
        reflexivity.
  - right. right. left. exists f, post. split; [reflexivity|]. split; [exact Hf|].
    rewrite handleFileUpload_run by (destruct done; discriminate).
    destruct (upload_loop_committed _ _ _ _ _ Hdone (f :: post)
                (setIsMenuOpen false (setUploading true st)) w eq_refl)
      as [status E].
    rewrite E. clear E. cbn [FileExplorer.upload_loop]. unfold bind at 1.
    rewrite upload_one_run. cbv zeta.
    unfold Github.toBase64 at 1. rewrite Hf. reflexivity.
  - right. right. right.
    exists f, post, (commit_request (currentPath st) f content), err.
    split; [reflexivity|].
    split; [apply commit_request_commits, Hread|]. split; [exact Hfail|].
    rewrite handleFileUpload_run by (destruct done; discriminate).
    destruct (upload_loop_committed _ _ _ _ _ Hdone (f :: post)
                (setIsMenuOpen false (setUploading true st)) w eq_refl)
      as [status E].
    rewrite E. clear E.
    rewrite (upload_loop_fails _ _ _ content err) by assumption.
    unfold answered. cbn [snd sent]. rewrite <- app_assoc. reflexivity.
Qed.

End Browser.

Module BrowserExamples.

Import FileExplorer.

(** The browser showing [readme] of an empty listing at the root. *)
Definition readme : FileEntry := Scripted.entry file "README.md".

Definition viewing : State :=
  {| currentPath := []; entries := [Some readme]; loading := false;
     selectedFile := Some readme; fileContent := Some (js "# demo");
     uploading := false; uploadStatus := []; isMenuOpen := false |}.

Definition at_root : State :=
  {| currentPath := []; entries := []; loading := false;
     selectedFile := None; fileContent := None;
     uploading := false; uploadStatus := []; isMenuOpen := true |}.

Definition a_txt : File := Scripted.text_file "a.txt" [x68; x69].
Definition b_txt : File := Scripted.text_file "b.txt" [x68; x69].
Definition c_txt : File := Scripted.text_file "c.txt" [x68; x69].

Definition disordered : list FileEntry :=
  [Scripted.entry file "b.txt"; Scripted.entry dir "src";
   Scripted.entry file "a.txt"; Scripted.entry dir "docs"].

End BrowserExamples.

(** Witness of C5: a delete the remote refuses with 409 leaves the file
    shown and alerts. *)
Lemma handleDelete_failure_keeps_file_witness :
  FileExplorer.handleDelete (H := Scripted.host) (C := Scripted.collator)
    Scripted.demo (js "t") true
    (BrowserExamples.viewing,
     Scripted.start [Scripted.failure 409 (js "README.md does not match")])
  = (inr tt,
     (BrowserExamples.viewing,
      @Build_World Scripted.host []
        [delete_request Scripted.demo (js "t") BrowserExamples.readme]
        [js "Delete failed: README.md does not match"]
        [])).
Proof.
  exact (handleDelete_failure_keeps_file (H := Scripted.host) (C := Scripted.collator)
           Scripted.demo (js "t") BrowserExamples.viewing
           (Scripted.start [Scripted.failure 409 (js "README.md does not match")])
           [] BrowserExamples.readme (Some (js "# demo")) eq_refl).
Defined.

(** Witness of C2: of three files, the first is committed, the second is
    refused and the third is not sent. *)
Lemma handleFileUpload_stops_at_first_failure_witness :
  let run :=
    FileExplorer.handleFileUpload (H := Scripted.host) (C := Scripted.collator)
      Scripted.demo (js "t")
      [BrowserExamples.a_txt; BrowserExamples.b_txt; BrowserExamples.c_txt]
      (BrowserExamples.at_root,
       Scripted.start [Scripted.committed 201; Scripted.failure 409 (js "Conflict");
                       Scripted.committed 201]) in
  map url (sent (snd (snd run))) =
    [js "https://api.github.com/repos/octocat/demo/contents/a.txt";
     js "https://api.github.com/repos/octocat/demo/contents/b.txt"]
  /\ alerts (snd (snd run)) = [js "Upload failed: Conflict"]
  /\ net (snd (snd run)) = [Scripted.committed 201].
Proof.
  intros run. subst run.
  edestruct (handleFileUpload_stops_at_first_failure
               (H := Scripted.host) (C := Scripted.collator)
               Scripted.demo (js "t") BrowserExamples.at_root
               (Scripted.start [Scripted.committed 201;
                                Scripted.failure 409 (js "Conflict");
                                Scripted.committed 201])
               [BrowserExamples.a_txt] [BrowserExamples.c_txt] BrowserExamples.b_txt)
    as [E _].
  - eapply Committed_cons; [reflexivity|reflexivity|apply Committed_nil].
  - reflexivity.
  - reflexivity.
  - simpl app in E. rewrite E. repeat split.
Defined.

(** C6, as the specification states it, fails: for a file named [a.txt] the
    message of the commit is ["Add a.txt via GitLite"], not ["Add a.txt"]. *)
Lemma commit_message_is_not_Add_filename :
  let run :=
    FileExplorer.handleFileUpload (H := Scripted.host) (C := Scripted.collator)
      Scripted.demo (js "t") [BrowserExamples.a_txt]
      (BrowserExamples.at_root,
       Scripted.start [Scripted.committed 201; Scripted.listing []]) in
  map body (sent (snd (snd run))) =
    [CommitBody (js "Add a.txt via GitLite") (js "aGk=") None; NoBody]
  /\ js "Add a.txt via GitLite" <> js "Add " ++ file_name BrowserExamples.a_txt.
Proof.
  split; [reflexivity|discriminate].
Qed.

(* ================================================================== *)
(** * Properties of the application shell *)
(* ================================================================== *)

Section Shell.
Context {H : Host}.

(** The request of [createRepo]. *)
Definition create_request (tok name : jsstring) (isPrivate : bool) : Request :=
  Github.request (js "/user/repos") tok
    {| Github.init_method := POST;
       Github.init_body := CreateRepoBody (App.create_params name isPrivate) |}.

Lemma createRepo_run (tok name : jsstring) (isPrivate : bool) (w : World) :
  Github.createRepo tok (App.create_params name isPrivate) w =
    (Github.settle (fst (fetch AsRepository (create_request tok name isPrivate) (net w))),
     {| net := snd (fetch AsRepository (create_request tok name isPrivate) (net w));
        sent := sent w ++ [create_request tok name isPrivate];
        alerts := alerts w; console := console w |}).
Proof. unfold Github.createRepo. rewrite githubFetch_run. reflexivity. Qed.

(** C7. When [createRepo] succeeds and gives the repository the remote
    created, [handleCreateRepo] replaces the list it holds by that
    repository followed by the previous list; the list then has an entry
    with the name and the privacy flag of the created repository. *)
Theorem handleCreateRepo_prepends :
  forall (st : App.State) (w : World) (tok name : jsstring) (isPrivate : bool)
         (newRepo : Repository),
    App.token (App.authData st) = Some tok ->
    tok <> [] ->
    Github.settle
      (fst (fetch AsRepository (create_request tok name isPrivate) (net w)))
      = inr (Some newRepo) ->
    exists (st' : App.State) (w' : World),
      App.handleCreateRepo name isPrivate (st, w) = (inr tt, (st', w'))
      /\ App.repos st' = Some newRepo :: App.repos st
      /\ sent w' = sent w ++ [create_request tok name isPrivate]
      /\ exists r, In (Some r) (App.repos st')
           /\ repo_name r = repo_name newRepo
           /\ repo_private r = repo_private newRepo.
Proof.
  intros st w tok name isPrivate newRepo Htok Hne Hok.
  unfold App.handleCreateRepo. run_monad. rewrite Htok.
  destruct tok as [|c tok]; [contradiction|]. simpl.
  rewrite createRepo_run, Hok. simpl.
  eexists. eexists. split; [reflexivity|]. simpl.
  split; [reflexivity|]. split; [reflexivity|].
  exists newRepo. auto.
Qed.

End Shell.

Module ShellExamples.

Definition signed_in : App.State :=
  {| App.authData :=
       {| App.user := None; App.token := Some (js "t");
          App.isAuthenticated := true; App.auth_loading := false |};
     App.repos := []; App.selectedRepo := None; App.repoLoading := false |}.

End ShellExamples.

(** Witness of C7: creating [demo], public, puts it first in the list. *)
Lemma handleCreateRepo_prepends_witness :
  exists (st' : App.State) (w' : World),
    App.handleCreateRepo (H := Scripted.host) (js "demo") false
      (ShellExamples.signed_in, Scripted.start [Scripted.created Scripted.demo])
      = (inr tt, (st', w'))
    /\ App.repos st' = [Some Scripted.demo]
    /\ sent w' = [create_request (js "t") (js "demo") false]
    /\ exists r, In (Some r) (App.repos st')
         /\ repo_name r = js "demo" /\ repo_private r = false.
Proof.
  apply (handleCreateRepo_prepends (H := Scripted.host) ShellExamples.signed_in
           (Scripted.start [Scripted.created Scripted.demo])
           (js "t") (js "demo") false Scripted.demo eq_refl).
  - discriminate.
  - reflexivity.
Defined.

(* ================================================================== *)
(** * The order of a listing *)
(* ================================================================== *)

Section SortSpec.
Context {A : Type} (comparefn : A -> A -> Z).

(** [comparefn] is a consistent comparison. *)
Hypothesis comparefn_swap : forall a b,
  Z.sgn (comparefn b a) = (- Z.sgn (comparefn a b))%Z.
Hypothesis comparefn_trans : forall a b c,
  (comparefn a b <= 0)%Z -> (comparefn b c <= 0)%Z -> (comparefn a c <= 0)%Z.

Definition before (a b : A) : Prop := (comparefn a b <= 0)%Z.

Lemma insert_Permutation (x : A) (l : list A) :
  Permutation (x :: l) (ArraySort.insert comparefn x l).
Proof.
  induction l as [|y l IH]; simpl; [apply Permutation_refl|].
  destruct (0 <? comparefn x y)%Z; [|apply Permutation_refl].
  eapply perm_trans; [apply perm_swap|]. apply perm_skip, IH.
Qed.

Lemma sort_Permutation (l : list A) : Permutation l (ArraySort.sort comparefn l).
Proof.
  induction l as [|x l IH]; simpl; [constructor|].
  eapply perm_trans; [apply perm_skip, IH|]. apply insert_Permutation.
Qed.

Lemma after_means_before (x y : A) :
  (0 < comparefn x y)%Z -> before y x.
Proof.
  intros Hxy. unfold before. pose proof (comparefn_swap x y) as Hs. lia.
Qed.

Lemma insert_StronglySorted (x : A) (l : list A) :
  StronglySorted before l -> StronglySorted before (ArraySort.insert comparefn x l).
Proof.
  induction 1 as [|y l Hl IH Hy]; simpl.
  - constructor; constructor.
  - destruct (Z.ltb_spec 0 (comparefn x y)) as [Hgt|Hle].
    + constructor; [exact IH|].
      eapply Permutation_Forall; [apply insert_Permutation|].
      constructor; [apply after_means_before; exact Hgt|exact Hy].
    + constructor; [constructor; assumption|].
      constructor; [exact Hle|].
      eapply Forall_impl; [|exact Hy].
      intros z Hz. exact (comparefn_trans x y z Hle Hz).
Qed.

Lemma sort_StronglySorted (l : list A) :
  StronglySorted before (ArraySort.sort comparefn l).
Proof.
  induction l as [|x l IH]; simpl; [constructor|].
  apply insert_StronglySorted, IH.
Qed.

End SortSpec.

Section ListingOrder.
Context {H : Host} {C : Collator}.
Variable repo : Repository.
Variable token : jsstring.

Import FileExplorer.

(** An entry is not after another by its name. *)
Definition by_name (a b : FileEntry) : Prop :=
  (localeCompare (name a) (name b) <= 0)%Z.

Definition is_kind (k : EntryType) (e : FileEntry) : bool :=
  EntryType_eqb (type e) k.

Lemma compare_entries_swap (a b : FileEntry) :
  Z.sgn (compare_entries b a) = (- Z.sgn (compare_entries a b))%Z.
Proof.
  unfold compare_entries.
  destruct (type a), (type b); simpl; try reflexivity;
    apply localeCompare_swap.
Qed.

Lemma compare_entries_trans (a b c : FileEntry) :
  (compare_entries a b <= 0)%Z -> (compare_entries b c <= 0)%Z ->
  (compare_entries a c <= 0)%Z.
Proof.
  unfold compare_entries.
  destruct (type a), (type b), (type c); simpl; try lia;
    apply localeCompare_trans.
Qed.

(** In a list ordered by [compare_entries], the folders come first. *)
Lemma folders_first (l : list FileEntry) :
  StronglySorted (before compare_entries) l ->
  l = filter (is_kind dir) l ++ filter (is_kind file) l.
Proof.
  induction 1 as [|a l Hl IH Ha]; [reflexivity|].
  cbn [filter].
  assert (Kd : is_kind dir a = match type a with dir => true | file => false end)
    by (unfold is_kind; destruct (type a); reflexivity).
  assert (Kf : is_kind file a = match type a with dir => false | file => true end)
    by (unfold is_kind; destruct (type a); reflexivity).
  rewrite Kd, Kf. clear Kd Kf.
  destruct (type a) eqn:Ta; cbn [app].
  - assert (Hfiles : Forall (fun e => type e = file) l).
    { eapply Forall_impl; [|exact Ha].
      intros e He. unfold before, compare_entries in He. rewrite Ta in He.
      destruct (type e); [reflexivity|simpl in He; lia]. }
    assert (Hd : filter (is_kind dir) l = []).
    { clear -Hfiles. induction Hfiles as [|e l He _ IHl]; [reflexivity|].
      simpl. unfold is_kind at 1. rewrite He. exact IHl. }
    assert (Hf : filter (is_kind file) l = l).
    { clear -Hfiles. induction Hfiles as [|e l He _ IHl]; [reflexivity|].
      simpl. unfold is_kind at 1. rewrite He. simpl. f_equal. exact IHl. }
    rewrite Hd, Hf. reflexivity.
  - f_equal. exact IH.
Qed.

(** The entries of one kind are ordered by their names. *)
Lemma kind_by_name (k : EntryType) (l : list FileEntry) :
  StronglySorted (before compare_entries) l ->
  StronglySorted by_name (filter (is_kind k) l).
Proof.
  induction 1 as [|a l Hl IH Ha]; simpl; [constructor|].
  destruct (is_kind k a) eqn:Ka; [|exact IH].
  constructor; [exact IH|].
  apply Forall_forall. intros e He. apply filter_In in He. destruct He as [He Ke].
  rewrite Forall_forall in Ha. specialize (Ha e He).
  unfold before, compare_entries in Ha. unfold is_kind in Ka, Ke.
  unfold by_name.
  destruct (type a), (type e), k; simpl in *; try discriminate; exact Ha.
Qed.

Lemma filter_is_kind (k : EntryType) (l : list FileEntry) :
  Forall (fun e => type e = k) (filter (is_kind k) l).
Proof.
  apply Forall_forall. intros e He. apply filter_In in He. destruct He as [_ Ke].
  unfold is_kind in Ke. destruct (type e), k; try discriminate; reflexivity.
Qed.

Lemma sequence_map_Some {T : Type} (l : list T) : sequence (map Some l) = Some l.
Proof. induction l as [|a l IH]; simpl; [reflexivity|]. rewrite IH. reflexivity. Qed.

(** C1, amended.  When [getContents] resolves with a list, the entries
    [fetchContents] stores, which are the ones displayed, are the entries of
    that list rearranged: first the folders, then the files, the entries of
    each kind being in non-decreasing order of their names for
    [localeCompare], the collation of the host. *)
Theorem fetchContents_folders_then_files_by_name :
  forall (p : jsstring) (st : State) (w : World) (items : list FileEntry),
    answer AsContents (contents_request repo token p) w = inr (Some (IsArray items)) ->
    exists (folders files : list FileEntry) (st' : State) (w' : World),
      fetchContents repo token p (st, w) = (inr tt, (st', w'))
      /\ entries st' = map Some (folders ++ files)
      /\ view st' =
           match folders ++ files with
           | [] => Empty (currentPath st)
           | shown => Listing (currentPath st) shown
           end
      /\ Forall (fun e => type e = dir) folders
      /\ Forall (fun e => type e = file) files
      /\ StronglySorted by_name folders
      /\ StronglySorted by_name files
      /\ Permutation items (folders ++ files).
Proof.
  intros p st w items Hans.
  pose proof (sort_StronglySorted compare_entries compare_entries_swap
                compare_entries_trans items) as Hsorted.
  pose proof (folders_first _ Hsorted) as Hsplit.
  exists (filter (is_kind dir) (ArraySort.sort compare_entries items)).
  exists (filter (is_kind file) (ArraySort.sort compare_entries items)).
  rewrite fetchContents_run, Hans, <- Hsplit.
  eexists. eexists. split; [reflexivity|]. cbn [entries listed].
  split; [reflexivity|]. split.
  { unfold view. cbn [loading selectedFile entries currentPath].
    destruct (ArraySort.sort compare_entries items) as [|e l];
      [reflexivity|].
    pose proof (sequence_map_Some (e :: l)) as Hseq.
    cbn [map] in Hseq |- *. rewrite Hseq. reflexivity. }
  split; [apply filter_is_kind|]. split; [apply filter_is_kind|].
  split; [apply kind_by_name, Hsorted|]. split; [apply kind_by_name, Hsorted|].
  apply sort_Permutation.
Qed.

End ListingOrder.

(** Witness of C1: two files and two folders, given in disorder. *)
Lemma fetchContents_folders_then_files_by_name_witness :
  exists (folders files : list FileEntry)
         (st' : FileExplorer.State) (w' : World (H := Scripted.host)),
    FileExplorer.fetchContents (C := Scripted.collator) Scripted.demo (js "t") []
      (BrowserExamples.at_root,
       Scripted.start [Scripted.listing BrowserExamples.disordered])
      = (inr tt, (st', w'))
    /\ FileExplorer.entries st' = map Some (folders ++ files)
    /\ FileExplorer.view st' =
         match folders ++ files with
         | [] => FileExplorer.Empty []
         | shown => FileExplorer.Listing [] shown
         end
    /\ Forall (fun e => type e = dir) folders
    /\ Forall (fun e => type e = file) files
    /\ StronglySorted (by_name (C := Scripted.collator)) folders
    /\ StronglySorted (by_name (C := Scripted.collator)) files
    /\ Permutation BrowserExamples.disordered (folders ++ files).
Proof.
  exact (fetchContents_folders_then_files_by_name (H := Scripted.host)
           (C := Scripted.collator) Scripted.demo (js "t") []
           BrowserExamples.at_root
           (Scripted.start [Scripted.listing BrowserExamples.disordered])
           BrowserExamples.disordered eq_refl).
Defined.

(** C1, as the specification states it, fails when the order of the names is
    the lexicographic order of their code units: with a collation that
    compares letters without regard to case first, which is what
    [localeCompare] does in a browser, the files [README.md] and [app.ts] are
    displayed with [app.ts] first, and [README.md] is the smaller name in the
    order of the code units. *)
Lemma listing_is_not_in_code_unit_order :
  FileExplorer.view
    (fst (snd (FileExplorer.fetchContents (H := Scripted.host)
                 (C := Scripted.alphabetical) Scripted.demo (js "t") []
                 (BrowserExamples.at_root,
                  Scripted.start
                    [Scripted.listing
                       [Scripted.entry file "README.md";
                        Scripted.entry file "app.ts"]]))))
  = FileExplorer.Listing []
      [Scripted.entry file "app.ts"; Scripted.entry file "README.md"]
  /\ (Scripted.compare_units (js "app.ts") (js "README.md") > 0)%Z
  /\ ~ StronglySorted
         (fun a b => (Scripted.compare_units (name a) (name b) <= 0)%Z)
         [Scripted.entry file "app.ts"; Scripted.entry file "README.md"].
Proof.
  split; [reflexivity|]. split; [reflexivity|].
  intros Hsorted. inversion Hsorted as [|a l _ Hall]; subst.
  inversion Hall as [|b l' Hle _]; subst.
  vm_compute in Hle. apply Hle. reflexivity.
Qed.

(** The listing of the witness, as it is displayed. *)
Example listing_displayed :
  FileExplorer.view
    (fst (snd (FileExplorer.fetchContents (H := Scripted.host)
                 (C := Scripted.collator) Scripted.demo (js "t") []
                 (BrowserExamples.at_root,
                  Scripted.start [Scripted.listing BrowserExamples.disordered]))))
  = FileExplorer.Listing []
      [Scripted.entry dir "docs"; Scripted.entry dir "src";
       Scripted.entry file "a.txt"; Scripted.entry file "b.txt"].
Proof. reflexivity. Qed.

(* ================================================================== *)
(** * The name of a new repository *)
(* ================================================================== *)

Section RepoName.

Import RepoList.

Definition no_whitespace (s : jsstring) : Prop :=
  Forall (fun c => whitespace c = false) s.

(** The text starts with a character that is not white space, or is empty. *)
Definition starts_text (s : jsstring) : Prop :=
  match s with
  | [] => True
  | c :: _ => whitespace c = false
  end.

(** [Hyphenated s t]: [t] is [s] with each maximal run of white space
    replaced by one hyphen, the rest being kept. *)
Inductive Hyphenated : jsstring -> jsstring -> Prop :=
| Hyphenated_end : Hyphenated [] []
| Hyphenated_keep (c : code_unit) (s t : jsstring) :
    whitespace c = false -> Hyphenated s t -> Hyphenated (c :: s) (c :: t)
| Hyphenated_run (run s t : jsstring) :
    run <> [] -> Forall (fun c => whitespace c = true) run ->
    starts_text s -> Hyphenated s t ->
    Hyphenated (run ++ s) (hyphen :: t).

(** The white space a text starts with, and what follows it. *)
Fixpoint leading (s : jsstring) : jsstring :=
  match s with
  | [] => []
  | c :: rest => if whitespace c then c :: leading rest else []
  end.

Fixpoint after_leading (s : jsstring) : jsstring :=
  match s with
  | [] => []
  | c :: rest => if whitespace c then after_leading rest else s
  end.

Lemma leading_split (s : jsstring) : s = leading s ++ after_leading s.
Proof.
  induction s as [|c s IH]; [reflexivity|]. simpl.
  destruct (whitespace c); [|reflexivity]. simpl. f_equal. exact IH.
Qed.

Lemma leading_whitespace (s : jsstring) :
  Forall (fun c => whitespace c = true) (leading s).
Proof.
  induction s as [|c s IH]; simpl; [constructor|].
  destruct (whitespace c) eqn:E; constructor; assumption.
Qed.

Lemma after_leading_starts_text (s : jsstring) : starts_text (after_leading s).
Proof.
  induction s as [|c s IH]; simpl; [exact I|].
  destruct (whitespace c) eqn:E; [exact IH|exact E].
Qed.

Lemma after_leading_length (s : jsstring) :
  (List.length (after_leading s) <= List.length s)%nat.
Proof.
  induction s as [|c s IH]; simpl; [lia|].
  destruct (whitespace c); simpl; lia.
Qed.

(** Inside a match, the rest of the run is taken without output. *)
Lemma replace_from_in_match (s : jsstring) :
  replace_from true s = replace_from false (after_leading s).
Proof.
  induction s as [|c s IH]; [reflexivity|]. simpl.
  destruct (whitespace c) eqn:E; [exact IH|].
  simpl. rewrite E. reflexivity.
Qed.

Lemma replace_whitespace_Hyphenated (s : jsstring) :
  Hyphenated s (replace_whitespace s).
Proof.
  unfold replace_whitespace.
  remember (List.length s) as n eqn:Hn.
  assert (Hle : (List.length s <= n)%nat) by lia. clear Hn.
  revert s Hle. induction n as [|n IH]; intros s Hle.
  - destruct s; [constructor|simpl in Hle; lia].
  - destruct s as [|c s]; [constructor|]. simpl in Hle |- *.
    destruct (whitespace c) eqn:E.
    + rewrite replace_from_in_match.
      rewrite (leading_split s) at 1.
      change (c :: leading s ++ after_leading s)
        with ((c :: leading s) ++ after_leading s).
      apply Hyphenated_run.
      * discriminate.
      * constructor; [exact E|apply leading_whitespace].
      * apply after_leading_starts_text.
      * apply IH. pose proof (after_leading_length s). lia.
    + apply Hyphenated_keep; [exact E|]. apply IH. lia.
Qed.

Lemma replace_from_no_whitespace (s : jsstring) :
  forall in_match : bool, no_whitespace (replace_from in_match s).
Proof.
  induction s as [|c s IH]; intros in_match; simpl; [constructor|].
  destruct (whitespace c) eqn:E.
  - destruct in_match; [apply IH|]. constructor; [reflexivity|apply IH].
  - constructor; [exact E|apply IH].
Qed.

Context {H : Host}.

(** The request is the creation of a repository whose name has no white
    space. *)
Definition creates_without_whitespace (r : Request) : Prop :=
  match body r with
  | CreateRepoBody params => method r = POST /\ no_whitespace (cr_name params)
  | _ => False
  end.

(** [handleCreateRepo] sends at most one request, for the name it is given. *)
Lemma handleCreateRepo_sent (name : jsstring) (isPrivate : bool)
    (st : App.State) (w : World) :
  exists reqs : list Request,
    sent (snd (snd (App.handleCreateRepo name isPrivate (st, w)))) = sent w ++ reqs
    /\ Forall (fun r => method r = POST
                        /\ body r = CreateRepoBody (App.create_params name isPrivate))
         reqs.
Proof.
  unfold App.handleCreateRepo. run_monad.
  destruct (App.token (App.authData st)) as [tok|].
  - destruct (truthy tok); simpl.
    + rewrite createRepo_run. simpl.
      destruct (Github.settle _) as [e|r]; simpl;
        (eexists; split; [reflexivity|]);
        (constructor; [split; reflexivity|constructor]).
    + exists []. rewrite app_nil_r. split; [reflexivity|constructor].
  - exists []. simpl. rewrite app_nil_r. split; [reflexivity|constructor].
Qed.

Definition sent_by (ui : RepoList.UI App.State) : list Request :=
  sent (snd (snd ui)).

(** What one event does to the name held and to the requests sent. *)
Lemma handle_keeps_name_clean (e : Event) (ui : RepoList.UI App.State) :
  no_whitespace (newRepoName (fst ui)) ->
  no_whitespace
    (newRepoName (fst (snd (handle App.State App.handleCreateRepo e ui))))
  /\ exists reqs : list Request,
       sent_by (snd (handle App.State App.handleCreateRepo e ui)) = sent_by ui ++ reqs
       /\ Forall creates_without_whitespace reqs.
Proof.
  intros Hclean. destruct ui as [st [app w]]. unfold sent_by.
  destruct e; simpl;
    try (split; [exact Hclean|]; exists []; rewrite app_nil_r;
         split; [reflexivity|constructor]).
  - split; [apply replace_from_no_whitespace|].
    exists []. rewrite app_nil_r. split; [reflexivity|constructor].
  - simpl in Hclean. unfold handleCreate, RepoList.set, outside, alert_user.
    run_monad.
    destruct (truthy (newRepoName st)); simpl.
    + destruct (handleCreateRepo_sent (newRepoName st) (newRepoPrivate st) app w)
        as (reqs & E & Hall).
      destruct (App.handleCreateRepo (newRepoName st) (newRepoPrivate st) (app, w))
        as [[err|[]] [app' w']]; simpl in E |- *.
      * split; [exact Hclean|]. exists reqs. split; [exact E|].
        eapply Forall_impl; [|exact Hall].
        intros r [Hm Hb]. unfold creates_without_whitespace. rewrite Hb.
        split; [exact Hm|exact Hclean].
      * split; [constructor|]. exists reqs. split; [exact E|].
        eapply Forall_impl; [|exact Hall].
        intros r [Hm Hb]. unfold creates_without_whitespace. rewrite Hb.
        split; [exact Hm|exact Hclean].
    + split; [exact Hclean|]. exists []. rewrite app_nil_r.
      split; [reflexivity|constructor].
Qed.

Lemma session_keeps_name_clean (events : list Event) :
  forall ui : RepoList.UI App.State,
    no_whitespace (newRepoName (fst ui)) ->
    exists reqs : list Request,
      sent_by (App.repo_list_session events ui) = sent_by ui ++ reqs
      /\ Forall creates_without_whitespace reqs.
Proof.
  unfold App.repo_list_session.
  induction events as [|e events IH]; intros ui Hclean.
  - exists []. simpl. rewrite app_nil_r. split; [reflexivity|constructor].
  - simpl. destruct (handle_keeps_name_clean e ui Hclean) as (Hclean' & reqs1 & E1 & H1).
    destruct (IH _ Hclean') as (reqs2 & E2 & H2).
    exists (reqs1 ++ reqs2). rewrite E2, E1, <- app_assoc.
    split; [reflexivity|]. apply Forall_app. split; assumption.
Qed.

(** C9. Typing a value in the name field stores the value with each maximal
    run of white space replaced by one hyphen, which has no white space; and
    whatever the user does in the repository list, starting with an empty
    name field, every request it makes the application send is the creation
    of a repository whose name has no white space. *)
Theorem repository_name_has_no_whitespace :
  (forall (value : jsstring) (ui : RepoList.UI App.State),
      let stored :=
        newRepoName
          (fst (snd (handle App.State App.handleCreateRepo (ChangeName value) ui))) in
      Hyphenated value stored /\ no_whitespace stored)
  /\ (forall (events : list Event) (app : App.State) (w : World),
        exists reqs : list Request,
          sent_by (App.repo_list_session events (RepoList.initial, (app, w)))
            = sent w ++ reqs
          /\ Forall creates_without_whitespace reqs).
Proof.
  split.
  - intros value [st [app w]]. simpl. split.
    + apply replace_whitespace_Hyphenated.
    + apply replace_from_no_whitespace.
  - intros events app w.
    apply (session_keeps_name_clean events (RepoList.initial, (app, w))).
    constructor.
Qed.

End RepoName.

(** A session: the user types a name with spaces, a tab and a line break,
    and submits; the repository asked for is [my-new-repo]. *)
Example typed_name_is_hyphenated :
  map body
    (sent_by
       (App.repo_list_session (H := Scripted.host)
          [RepoList.OpenModal;
           RepoList.ChangeName (js "my  new" ++ [9; 10] ++ js "repo");
           RepoList.Submit]
          (RepoList.initial,
           (ShellExamples.signed_in, Scripted.start [Scripted.created Scripted.demo]))))
  = [CreateRepoBody (App.create_params (js "my-new-repo") false)].
Proof. reflexivity. Qed.

(* ================================================================== *)
(** * Base64: what [atob] reads is what the reader wrote *)
(* ================================================================== *)

Ltac divmod := zify; Z.to_euclidean_division_equations; lia.

Section Base64Facts.

Import Base64.

(** Lists three elements at a time. *)
Lemma list_ind3 {A : Type} (P : list A -> Prop) :
  P [] -> (forall a, P [a]) -> (forall a b, P [a; b]) ->
  (forall a b c l, P l -> P (a :: b :: c :: l)) ->
  forall l, P l.
Proof.
  intros H0 H1 H2 H3. fix rec 1.
  intros [|a [|b [|c l]]]; [exact H0|apply H1|apply H2|apply H3, rec].
Qed.

Lemma to_uint8_to_N (b : byte) : to_uint8 (Byte.to_N b) = b.
Proof.
  unfold to_uint8. pose proof (Byte.to_N_bounded b) as Hb.
  rewrite N.mod_small by lia. rewrite Byte.of_to_N. reflexivity.
Qed.

Lemma to_N_to_uint8 (n : N) : n < 256 -> Byte.to_N (to_uint8 n) = n.
Proof.
  intros Hn. unfold to_uint8. rewrite N.mod_small by exact Hn.
  pose proof (Byte.to_of_N_option_map n) as Ho.
  destruct (Byte.of_N n) as [b|] eqn:E.
  - apply Byte.to_of_N. exact E.
  - simpl in Ho. destruct (N.leb_spec n 255); [discriminate|lia].
Qed.

(** A base64 digit is a letter, a figure, [+] or [/]. *)
Definition is_digit (c : code_unit) : bool :=
  ((65 <=? c) && (c <=? 90)) || ((97 <=? c) && (c <=? 122))
  || ((48 <=? c) && (c <=? 57)) || (c =? 43) || (c =? 47).

Lemma digit_is_digit (i : N) : i < 64 -> is_digit (digit i) = true.
Proof.
  intros Hi. unfold digit, is_digit.
  destruct (N.ltb_spec i 26); [|destruct (N.ltb_spec i 52);
    [|destruct (N.ltb_spec i 62); [|destruct (N.eqb_spec i 62)]]];
    repeat match goal with
           | |- context [N.leb ?a ?b] => destruct (N.leb_spec a b); try lia
           | |- context [N.eqb ?a ?b] => destruct (N.eqb_spec a b); try lia
           end; reflexivity.
Qed.

Lemma value_digit (i : N) : i < 64 -> value (digit i) = Some i.
Proof.
  intros Hi. unfold digit, value.
  destruct (N.ltb_spec i 26); [|destruct (N.ltb_spec i 52);
    [|destruct (N.ltb_spec i 62); [|destruct (N.eqb_spec i 62)]]];
    repeat match goal with
           | |- context [N.leb ?a ?b] => destruct (N.leb_spec a b); try lia
           | |- context [N.eqb ?a ?b] => destruct (N.eqb_spec a b); try lia
           end; cbn [andb]; f_equal; lia.
Qed.

Lemma is_digit_spec (c : code_unit) :
  is_digit c = true ->
  c <> equals_sign /\ ascii_whitespace c = false
  /\ Github.line_terminator c = false /\ c <> Github.comma /\ (c =? 10) = false.
Proof.
  unfold is_digit, equals_sign, ascii_whitespace, Github.line_terminator,
    Github.comma.
  intros Hd.
  repeat match goal with
         | H : context [N.leb ?a ?b] |- _ => destruct (N.leb_spec a b)
         | H : context [N.eqb ?a ?b] |- _ => destruct (N.eqb_spec a b)
         end; simpl in Hd; try discriminate;
    repeat match goal with
           | |- context [N.eqb ?a ?b] => destruct (N.eqb_spec a b); try lia
           end; simpl; repeat split; lia.
Qed.

Lemma sextets_bound (bs : list byte) : Forall (fun v => v < 64) (sextets bs).
Proof.
  induction bs as [|a|a b|a b c bs IH] using list_ind3; simpl.
  - constructor.
  - pose proof (Byte.to_N_bounded a).
    repeat constructor; divmod.
  - pose proof (Byte.to_N_bounded a). pose proof (Byte.to_N_bounded b).
    repeat constructor; divmod.
  - pose proof (Byte.to_N_bounded a). pose proof (Byte.to_N_bounded b).
    pose proof (Byte.to_N_bounded c).
    repeat (constructor; [divmod|]). exact IH.
Qed.

(** The groups of six bits give the bytes back. *)
Lemma octets_sextets (bs : list byte) : octets (sextets bs) = map Byte.to_N bs.
Proof.
  induction bs as [|a|a b|a b c bs IH] using list_ind3.
  - reflexivity.
  - pose proof (Byte.to_N_bounded a). cbn [sextets octets map].
    f_equal. divmod.
  - pose proof (Byte.to_N_bounded a). pose proof (Byte.to_N_bounded b).
    cbn [sextets octets map].
    set (n := Byte.to_N a * 65536 + Byte.to_N b * 256).
    assert (E : (n / 262144 * 4096 + n / 4096 mod 64 * 64 + n / 64 mod 64) / 4
                = Byte.to_N a * 256 + Byte.to_N b) by (subst n; divmod).
    rewrite E. f_equal; [divmod|]. f_equal. divmod.
  - pose proof (Byte.to_N_bounded a). pose proof (Byte.to_N_bounded b).
    pose proof (Byte.to_N_bounded c).
    cbn [sextets octets map].
    set (n := Byte.to_N a * 65536 + Byte.to_N b * 256 + Byte.to_N c).
    assert (E : n / 262144 * 262144 + n / 4096 mod 64 * 4096
                + n / 64 mod 64 * 64 + n mod 64 = n) by divmod.
    rewrite E, IH. subst n.
    f_equal; [divmod|]. f_equal; [divmod|]. f_equal. divmod.
Qed.

Lemma digits_of_sextets (bs : list byte) :
  Forall (fun c => is_digit c = true) (map digit (sextets bs)).
Proof.
  apply Forall_map. eapply Forall_impl; [|apply sextets_bound].
  intros v Hv. apply digit_is_digit, Hv.
Qed.

Lemma padding_cases (bs : list byte) :
  padding bs = [] \/ padding bs = [equals_sign]
  \/ padding bs = [equals_sign; equals_sign].
Proof.
  induction bs as [|a|a b|a b c bs IH] using list_ind3; simpl; auto.
Qed.

(** The digits and the padding make groups of four characters; the digits
    alone never leave one character over. *)
Lemma encode_length (bs : list byte) :
  exists k r : nat,
    (List.length (sextets bs) + List.length (padding bs) = 4 * k)%nat
    /\ (List.length (sextets bs) = 4 * r \/ List.length (sextets bs) = 4 * r + 2
        \/ List.length (sextets bs) = 4 * r + 3)%nat.
Proof.
  induction bs as [|a|a b|a b c bs IH] using list_ind3.
  - exists 0%nat, 0%nat. simpl. auto.
  - exists 1%nat, 0%nat. simpl. auto.
  - exists 1%nat, 0%nat. simpl. auto.
  - destruct IH as (k & r & Hk & Hr). exists (S k), (S r).
    cbn [sextets padding List.length]. lia.
Qed.

Lemma filter_all {A : Type} (keep : A -> bool) (l : list A) :
  Forall (fun x => keep x = true) l -> filter keep l = l.
Proof.
  induction 1 as [|x l Hx _ IH]; [reflexivity|].
  simpl. rewrite Hx, IH. reflexivity.
Qed.

Lemma drop_padding_cons (c : code_unit) (rest : jsstring) :
  c <> equals_sign -> drop_padding (c :: rest) = c :: drop_padding rest.
Proof.
  intros Hc. cbn [drop_padding].
  destruct (N.eqb_spec c equals_sign) as [E|_]; [contradiction|].
  destruct rest as [|d [|e rest]]; reflexivity.
Qed.

Lemma drop_padding_after_digits (ds pad : jsstring) :
  Forall (fun c => is_digit c = true) ds ->
  pad = [] \/ pad = [equals_sign] \/ pad = [equals_sign; equals_sign] ->
  drop_padding (ds ++ pad) = ds.
Proof.
  intros Hds Hpad. induction Hds as [|c ds Hc _ IH].
  - destruct Hpad as [->|[->| ->]]; reflexivity.
  - cbn [app]. rewrite drop_padding_cons by (apply is_digit_spec, Hc).
    rewrite IH. reflexivity.
Qed.

Lemma values_of_digits (vs : list N) :
  Forall (fun v => v < 64) vs -> sequence (map value (map digit vs)) = Some vs.
Proof.
  induction 1 as [|v vs Hv _ IH]; [reflexivity|].
  cbn [map sequence]. rewrite (value_digit v Hv), IH. reflexivity.
Qed.

(** No character of an encoding is white space, a line terminator or a comma. *)
Lemma encode_characters (bs : list byte) :
  Forall (fun c => ascii_whitespace c = false /\ Github.line_terminator c = false
                   /\ c <> Github.comma /\ (c =? 10) = false) (encode bs).
Proof.
  unfold encode. apply Forall_app. split.
  - eapply Forall_impl; [|apply digits_of_sextets].
    intros c Hc. apply is_digit_spec in Hc.
    destruct Hc as (_ & Hw & Hl & Hk & Hn). auto.
  - destruct (padding_cases bs) as [->|[->| ->]];
      repeat constructor; discriminate.
Qed.

Lemma encode_length_multiple_of_4 (bs : list byte) :
  (List.length (encode bs) mod 4 = 0)%nat.
Proof.
  unfold encode. rewrite length_app, length_map.
  destruct (encode_length bs) as (k & r & Hk & _). rewrite Hk.
  rewrite Nat.mul_comm. apply Nat.Div0.mod_mul.
Qed.

(** [atob] gives back the bytes that were encoded. *)
Lemma atob_encode (bs : list byte) :
  atob (encode bs) = Some (map Byte.to_N bs).
Proof.
  unfold atob.
  rewrite filter_all.
  2:{ eapply Forall_impl; [|apply encode_characters].
      intros c (Hw & _). rewrite Hw. reflexivity. }
  destruct (encode_length bs) as (k & r & Hk & Hr).
  assert (H4 : N.of_nat (List.length (encode bs)) mod 4 = 0).
  { unfold encode. rewrite length_app, length_map, Hk. divmod. }
  rewrite H4. cbn [N.eqb].
  unfold encode at 1 2.
  rewrite drop_padding_after_digits
    by (apply digits_of_sextets || apply padding_cases).
  rewrite length_map.
  assert (H1 : (N.of_nat (List.length (sextets bs)) mod 4 =? 1) = false).
  { apply N.eqb_neq. divmod. }
  rewrite H1, values_of_digits by apply sextets_bound.
  rewrite octets_sextets. reflexivity.
Qed.

End Base64Facts.

(* ================================================================== *)
(** * UTF-8: the decoder reads what the encoder wrote *)
(* ================================================================== *)

Section Utf8Facts.

Import Utf8.

Lemma lor_shiftl_add (x y k : N) :
  y < 2 ^ k -> N.lor (N.shiftl x k) y = x * 2 ^ k + y.
Proof.
  intros Hy.
  assert (Hland : N.land (N.shiftl x k) y = 0).
  { apply N.bits_inj. intros m. rewrite N.land_spec, N.bits_0.
    destruct (N.lt_ge_cases m k) as [Hm|Hm].
    - rewrite N.shiftl_spec_low by exact Hm. reflexivity.
    - rewrite <- (N.mod_small y (2 ^ k)) by exact Hy.
      rewrite N.mod_pow2_bits_high by exact Hm. apply andb_false_r. }
  rewrite <- N.lxor_lor by exact Hland.
  rewrite <- N.add_nocarry_lxor by exact Hland.
  rewrite N.shiftl_mul_pow2. reflexivity.
Qed.

Lemma land_low (x k : N) : N.land x (N.ones k) = x mod 2 ^ k.
Proof. apply N.land_ones. Qed.

Lemma land_63 (x : N) : N.land x 63 = x mod 64.
Proof. exact (land_low x 6). Qed.

Lemma land_31 (x : N) : N.land x 31 = x mod 32.
Proof. exact (land_low x 5). Qed.

Lemma land_15 (x : N) : N.land x 15 = x mod 16.
Proof. exact (land_low x 4). Qed.

Lemma land_7 (x : N) : N.land x 7 = x mod 8.
Proof. exact (land_low x 3). Qed.

Lemma continuation_arith (c k : N) :
  continuation c k = 128 + (c / 2 ^ (6 * k)) mod 64.
Proof.
  unfold continuation. rewrite land_63, N.shiftr_div_pow2.
  change 128 with (N.shiftl 1 7).
  rewrite (lor_shiftl_add 1 _ 7).
  - reflexivity.
  - change (2 ^ 7) with 128.
    pose proof (N.mod_upper_bound (c / 2 ^ (6 * k)) 64). lia.
Qed.

(** The bytes of a scalar value, in arithmetic. *)
Lemma encode_one_arith (c : code_point) :
  encode_one c =
    if c <=? 127 then [c]
    else if c <=? 2047 then [c / 64 + 192; 128 + c mod 64]
    else if c <=? 65535 then
      [c / 4096 + 224; 128 + (c / 64) mod 64; 128 + c mod 64]
    else
      [c / 262144 + 240; 128 + (c / 4096) mod 64;
       128 + (c / 64) mod 64; 128 + c mod 64].
Proof.
  unfold encode_one. rewrite !continuation_arith, !N.shiftr_div_pow2.
  change (2 ^ (6 * 0)) with 1. change (2 ^ (6 * 1)) with 64.
  change (2 ^ (6 * 2)) with 4096. change (2 ^ 6) with 64.
  change (2 ^ 12) with 4096. change (2 ^ 18) with 262144.
  rewrite N.div_1_r. reflexivity.
Qed.

(** A continuation byte in the expected range adds its six bits. *)
Lemma handler_continue (d : Decoder) (b : N) :
  bytes_needed d <> 0 ->
  lower_boundary d <= b -> b <= upper_boundary d ->
  handler d b =
    if bytes_seen d + 1 =? bytes_needed d then (initial, [cp d * 64 + b mod 64])
    else
      ({| cp := cp d * 64 + b mod 64; bytes_seen := bytes_seen d + 1;
          bytes_needed := bytes_needed d;
          lower_boundary := 128; upper_boundary := 191 |}, []).
Proof.
  intros Hn Hl Hu. unfold handler.
  destruct (N.eqb_spec (bytes_needed d) 0) as [E|_]; [contradiction|].
  destruct (N.leb_spec (lower_boundary d) b); [|lia].
  destruct (N.leb_spec b (upper_boundary d)); [|lia].
  cbn [andb negb]. rewrite land_63.
  rewrite (lor_shiftl_add (cp d) (b mod 64) 6)
    by (change (2 ^ 6) with 64; apply N.mod_upper_bound; lia).
  reflexivity.
Qed.

Lemma lead_1 (b : N) : b <= 127 -> lead b = (initial, [b]).
Proof. intros Hb. unfold lead. destruct (N.leb_spec b 127); [reflexivity|lia]. Qed.

Lemma lead_2 (b : N) :
  194 <= b -> b <= 223 ->
  lead b = ({| cp := b mod 32; bytes_seen := 0; bytes_needed := 1;
               lower_boundary := 128; upper_boundary := 191 |}, []).
Proof.
  intros Hl Hu. unfold lead. rewrite land_31.
  destruct (N.leb_spec b 127); [lia|].
  destruct (N.leb_spec 194 b); [|lia]. destruct (N.leb_spec b 223); [|lia].
  reflexivity.
Qed.

Lemma lead_3 (b : N) :
  224 <= b -> b <= 239 ->
  lead b = ({| cp := b mod 16; bytes_seen := 0; bytes_needed := 2;
               lower_boundary := if b =? 224 then 160 else 128;
               upper_boundary := if b =? 237 then 159 else 191 |}, []).
Proof.
  intros Hl Hu. unfold lead. rewrite land_15.
  destruct (N.leb_spec b 127); [lia|].
  destruct (N.leb_spec 194 b); [|lia]. destruct (N.leb_spec b 223); [lia|].
  destruct (N.leb_spec 224 b); [|lia]. destruct (N.leb_spec b 239); [|lia].
  reflexivity.
Qed.

Lemma lead_4 (b : N) :
  240 <= b -> b <= 244 ->
  lead b = ({| cp := b mod 8; bytes_seen := 0; bytes_needed := 3;
               lower_boundary := if b =? 240 then 144 else 128;
               upper_boundary := if b =? 244 then 143 else 191 |}, []).
Proof.
  intros Hl Hu. unfold lead. rewrite land_7.
  destruct (N.leb_spec b 127); [lia|].
  destruct (N.leb_spec 194 b); [|lia]. destruct (N.leb_spec b 223); [lia|].
  destruct (N.leb_spec 224 b); [|lia]. destruct (N.leb_spec b 239); [lia|].
  destruct (N.leb_spec 240 b); [|lia]. destruct (N.leb_spec b 244); [|lia].
  reflexivity.
Qed.

Lemma is_scalar_spec (c : code_point) :
  is_scalar c = true -> c <= 1114111 /\ (c < 55296 \/ 57343 < c).
Proof.
  unfold is_scalar. intros Hc.
  destruct (N.leb_spec c 1114111); [|discriminate].
  destruct (N.leb_spec 55296 c); destruct (N.leb_spec c 57343);
    try discriminate; lia.
Qed.

Lemma handler_initial (b : N) : handler initial b = lead b.
Proof. reflexivity. Qed.

Ltac continue_with :=
  rewrite handler_continue
    by (cbn [bytes_needed lower_boundary upper_boundary];
        repeat match goal with
               | |- context [N.eqb ?a ?b] => destruct (N.eqb_spec a b)
               end; divmod);
  cbn [bytes_seen bytes_needed cp];
  try change (0 + 1 =? 1) with true;
  try change (0 + 1 =? 2) with false;
  try change (0 + 1 + 1 =? 2) with true;
  try change (0 + 1 =? 3) with false;
  try change (0 + 1 + 1 =? 3) with false;
  try change (0 + 1 + 1 + 1 =? 3) with true;
  cbv beta iota.

(** Read from the initial state, the bytes of a scalar value give that value
    and leave the decoder in the initial state. *)
Lemma run_encode_one (c : code_point) (rest : list byte) :
  is_scalar c = true ->
  run initial (map to_uint8 (encode_one c) ++ rest) = c :: run initial rest.
Proof.
  intros Hc. destruct (is_scalar_spec c Hc) as [Hmax Hsur].
  rewrite encode_one_arith.
  destruct (N.leb_spec c 127) as [H1|H1];
    [|destruct (N.leb_spec c 2047) as [H2|H2];
      [|destruct (N.leb_spec c 65535) as [H3|H3]]];
    cbn [map app run]; rewrite !to_N_to_uint8 by divmod;
    rewrite handler_initial.
  - rewrite lead_1 by lia. reflexivity.
  - rewrite lead_2 by divmod. cbv beta iota.
    continue_with. cbn [app]. f_equal. divmod.
  - rewrite lead_3 by divmod. cbv beta iota.
    continue_with. continue_with. cbn [app]. f_equal. divmod.
  - rewrite lead_4 by divmod. cbv beta iota.
    continue_with. continue_with. continue_with. cbn [app]. f_equal. divmod.
Qed.

Lemma run_encode (text : list code_point) :
  Forall (fun c => is_scalar c = true) text ->
  run initial (encode text) = text.
Proof.
  unfold encode. induction 1 as [|c text Hc _ IH]; [reflexivity|].
  cbn [flat_map]. rewrite map_app, run_encode_one by exact Hc.
  rewrite IH. reflexivity.
Qed.

(** [TextDecoder] gives back the text that was encoded, without the byte order
    mark it starts with, if any. *)
Lemma decode_encode (text : list code_point) :
  Forall (fun c => is_scalar c = true) text ->
  decode (encode text) = without_BOM text.
Proof. intros Htext. unfold decode. rewrite run_encode by exact Htext. reflexivity. Qed.

End Utf8Facts.

(* ================================================================== *)
(** * From a file to its base64 and back to its text *)
(* ================================================================== *)

Section RoundTrip.

(** The media type has no line terminator, as the File API has it. *)
Definition plain_media_type (f : File) : bool :=
  forallb (fun c => negb (Github.line_terminator c)) (media_type f).

Definition all_scalar (text : list Utf8.code_point) : bool :=
  forallb Utf8.is_scalar text.


Lemma after_last_comma_without_comma (s : jsstring) :
  Forall (fun c => c <> Github.comma) s -> Github.after_last_comma s = None.
Proof.
  induction 1 as [|c s Hc _ IH]; [reflexivity|].
  cbn [Github.after_last_comma]. rewrite IH.
  destruct (Github.line_terminator c); [reflexivity|].
  destruct (N.eqb_spec c Github.comma); [contradiction|reflexivity].
Qed.

(** The group [(.*,)] takes the line up to its last comma. *)
Lemma after_last_comma_app (a b : jsstring) :
  Forall (fun c => Github.line_terminator c = false) a ->
  Forall (fun c => c <> Github.comma) b ->
  Github.after_last_comma (a ++ Github.comma :: b) = Some b.
Proof.
  intros Ha Hb. induction Ha as [|c a Hc _ IH].
  - cbn [app Github.after_last_comma].
    rewrite (after_last_comma_without_comma b Hb). reflexivity.
  - cbn [app Github.after_last_comma]. rewrite Hc, IH. reflexivity.
Qed.

Lemma strip_readAsDataURL (f : File) (bytes : list byte) :
  plain_media_type f = true ->
  Github.strip_data_prefix (Github.readAsDataURL f bytes) = Base64.encode bytes.
Proof.
  intros Hplain. unfold Github.strip_data_prefix, Github.readAsDataURL.
  change (startsWith (js "data:" ++ media_type f ++ js ";base64," ++ Base64.encode bytes)
            (js "data:")) with true.
  cbv iota.
  change (slice (js "data:" ++ media_type f ++ js ";base64," ++ Base64.encode bytes) 5)
    with (media_type f ++ js ";base64" ++ Github.comma :: Base64.encode bytes).
  rewrite app_assoc, after_last_comma_app; [reflexivity| |].
  - apply Forall_app. split.
    + unfold plain_media_type in Hplain. rewrite forallb_forall in Hplain.
      apply Forall_forall. intros c Hc. specialize (Hplain c Hc).
      destruct (Github.line_terminator c); [discriminate|reflexivity].
    + repeat constructor.
  - eapply Forall_impl; [|apply encode_characters].
    intros c (_ & _ & Hc & _). exact Hc.
Qed.

Lemma pad4_encode (bytes : list byte) :
  Github.pad4 (Base64.encode bytes) = Base64.encode bytes.
Proof.
  unfold Github.pad4. rewrite encode_length_multiple_of_4. reflexivity.
Qed.

(** [toBase64] resolves with the base64 of the bytes of the file. *)
Lemma toBase64_encode (S : Type) (f : File) (bytes : list byte) (st : S) :
  plain_media_type f = true ->
  file_bytes f = Some bytes ->
  Github.toBase64 f st = (inr (Base64.encode bytes), st).
Proof.
  intros Hplain Hbytes. unfold Github.toBase64. rewrite Hbytes.
  rewrite or_else_empty, strip_readAsDataURL, pad4_encode by exact Hplain.
  reflexivity.
Qed.

(** The bytes the browser rebuilds are the ones that were encoded. *)
Lemma content_bytes_encode (bytes : list byte) :
  FileExplorer.content_bytes (Base64.encode bytes) = Some bytes.
Proof.
  unfold FileExplorer.content_bytes, FileExplorer.remove_newlines.
  rewrite filter_all.
  2:{ eapply Forall_impl; [|apply encode_characters].
      intros c (_ & _ & _ & Hn). rewrite Hn. reflexivity. }
  rewrite atob_encode, map_map. f_equal.
  induction bytes as [|b bytes IH]; [reflexivity|].
  cbn [map]. rewrite to_uint8_to_N, IH. reflexivity.
Qed.

(** The text shown for the base64 of a text is that text without the byte
    order mark it starts with, if any. *)
Lemma decode_content_encode (text : list Utf8.code_point) :
  all_scalar text = true ->
  FileExplorer.decode_content (Base64.encode (Utf8.encode text))
    = Some (Utf8.utf16 (Utf8.without_BOM text)).
Proof.
  intros Htext. unfold FileExplorer.decode_content, Utf8.TextDecoder_decode.
  rewrite content_bytes_encode, decode_encode; [reflexivity|].
  unfold all_scalar in Htext. rewrite forallb_forall in Htext.
  apply Forall_forall. exact Htext.
Qed.


End RoundTrip.

Section Showing.
Context {H : Host} {C : Collator}.
Variable repo : Repository.
Variable token : jsstring.

(** Clicking a file shows what [decode_content] makes of the content the
    remote sends for it. *)
Lemma handleEntryClick_shows_decoded (entry data : FileEntry)
    (text decoded : jsstring) (st : FileExplorer.State) (w : World) :
  type entry = file ->
  answer AsContents (contents_request repo token (path entry)) w
    = inr (Some (IsEntry data)) ->
  content data = Some text ->
  truthy text = true ->
  FileExplorer.decode_content text = Some decoded ->
  FileExplorer.fileContent
    (fst (snd (FileExplorer.handleEntryClick repo token entry (st, w))))
  = Some decoded.
Proof.
  intros Htype Hans Hcontent Htruthy Hdecoded.
  unfold FileExplorer.handleEntryClick. rewrite Htype.
  unfold Github.getContents. run_monad. rewrite githubFetch_run.
  unfold answer, contents_request in Hans. simpl in Hans |- *. rewrite Hans.
  simpl. rewrite Hcontent, Htruthy, Hdecoded. reflexivity.
Qed.

End Showing.

Module RoundTripExamples.


(** "hi" after a byte order mark, as some editors save a text. *)
Definition marked : list Utf8.code_point := [Utf8.BOM; 104; 105].

Definition file_of (text : list Utf8.code_point) : File :=
  Scripted.text_file "notes.txt" (Utf8.encode text).

End RoundTripExamples.



(* ================================================================== *)
(** * More about the remote API client *)
(* ================================================================== *)

(** A response that is not 2xx and whose body is the JSON value [null] makes
    [githubFetch] throw the TypeError of reading [message] of [null], not an
    error with the message of the remote or the generic one. *)
Theorem githubFetch_null_error_body :
  forall (H : Host) (s : Schema) (endpoint token : jsstring)
         (options : Github.RequestInit) (w : World)
         (response : Response (Parsed s)) (n : Net),
    fetch s (Github.request endpoint token options) (net w) = (Resolves response, n) ->
    ok response = false ->
    json_error response = Some JNull ->
    fst (Github.githubFetch s endpoint token options w) = inl (TypeError ReadOfNull).
Proof.
  intros H s endpoint token options w response n Hfetch Hok Hnull.
  rewrite githubFetch_run, Hfetch. simpl. rewrite Hok. simpl.
  unfold Github.error_of. rewrite Hnull. reflexivity.
Qed.

Module ClientExamples.

(** A 502 response whose body is [null]. *)
Definition null_body : Scripted.Reply :=
  {| Scripted.repositories := Scripted.respond 502 (Some JNull) (inl Scripted.no_json);
     Scripted.repository := Scripted.respond 502 (Some JNull) (inl Scripted.no_json);
     Scripted.contents := Scripted.respond 502 (Some JNull) (inl Scripted.no_json);
     Scripted.any := Scripted.respond 502 (Some JNull) (inl Scripted.no_json) |}.

Definition update (sha : option jsstring) : CommitParams :=
  {| cp_owner := js "octocat"; cp_repo := js "demo"; cp_path := js "a.txt";
     cp_message := js "Update a.txt"; cp_content := js "aGk="; cp_sha := sha |}.

End ClientExamples.

Lemma githubFetch_null_error_body_witness :
  fst (Github.githubFetch (H := Scripted.host) AsAny (js "/user/repos") (js "t")
         Github.no_options (Scripted.start [ClientExamples.null_body]))
    = inl (ErrorObj (js "TypeError") (js "Cannot read properties of null")).
Proof.
  exact (githubFetch_null_error_body Scripted.host AsAny (js "/user/repos") (js "t")
           Github.no_options (Scripted.start [ClientExamples.null_body])
           _ _ eq_refl eq_refl eq_refl).
Defined.

(** [createFile] puts the hash in the request only when it is a string that
    is not empty: with the empty string as hash it does exactly what it does
    with no hash, which is to ask for the creation of the file; with another
    hash the body of the request carries it. *)
Theorem createFile_hash_only_when_not_empty :
  forall (H : Host) (token owner repo path message content : jsstring) (w : World),
    let params sha :=
      {| cp_owner := owner; cp_repo := repo; cp_path := path;
         cp_message := message; cp_content := content; cp_sha := sha |} in
    Github.createFile token (params (Some [])) w
      = Github.createFile token (params None) w
    /\ map body (sent (snd (Github.createFile token (params None) w)))
       = map body (sent w) ++ [CommitBody message content None]
    /\ forall (c : code_unit) (sha : jsstring),
         map body (sent (snd (Github.createFile token (params (Some (c :: sha))) w)))
         = map body (sent w) ++ [CommitBody message content (Some (c :: sha))].
Proof.
  intros H token owner repo path message content w params. subst params.
  unfold Github.createFile. rewrite !githubFetch_run. cbn [snd sent cp_sha truthy].
  rewrite !map_app. split; [reflexivity|]. split; [reflexivity|].
  intros c sha. rewrite githubFetch_run. cbn [snd sent]. rewrite map_app.
  reflexivity.
Qed.

(* ================================================================== *)
(** * More about the repository browser *)
(* ================================================================== *)

Section SortMore.
Context {A : Type} (comparefn : A -> A -> Z).

(** A list that is in order is left as it is. *)
Lemma sort_of_sorted (l : list A) :
  StronglySorted (before comparefn) l -> ArraySort.sort comparefn l = l.
Proof.
  induction 1 as [|x l Hl IH Hx]; [reflexivity|].
  cbn [ArraySort.sort]. rewrite IH.
  destruct Hx as [|y l Hxy _]; [reflexivity|].
  cbn [ArraySort.insert]. unfold before in Hxy.
  destruct (Z.ltb_spec 0 (comparefn x y)); [lia|reflexivity].
Qed.

Hypothesis comparefn_swap : forall a b,
  Z.sgn (comparefn b a) = (- Z.sgn (comparefn a b))%Z.
Hypothesis comparefn_trans : forall a b c,
  (comparefn a b <= 0)%Z -> (comparefn b c <= 0)%Z -> (comparefn a c <= 0)%Z.

(** Where [insert] puts an element: after the elements it sorts after. *)
Lemma insert_place (x : A) (l : list A) :
  exists l1 l2 : list A,
    l = l1 ++ l2 /\ ArraySort.insert comparefn x l = l1 ++ x :: l2
    /\ Forall (fun z => (0 < comparefn x z)%Z) l1.
Proof.
  induction l as [|y l IH].
  - exists [], []. repeat split. constructor.
  - cbn [ArraySort.insert]. destruct (Z.ltb_spec 0 (comparefn x y)) as [Hgt|Hle].
    + destruct IH as (l1 & l2 & E & Ei & Hall).
      exists (y :: l1), l2. cbn [app]. rewrite <- E, Ei.
      repeat split. constructor; assumption.
    + exists [], (y :: l). repeat split. constructor.
Qed.

(** The elements that compare equal to [a]. *)
Definition ties (a : A) (l : list A) : list A :=
  filter (fun e => (comparefn a e =? 0)%Z) l.

Lemma ties_app (a : A) (l1 l2 : list A) :
  ties a (l1 ++ l2) = ties a l1 ++ ties a l2.
Proof. apply filter_app. Qed.

Lemma no_tie_among_smaller (a x : A) (l : list A) :
  comparefn a x = 0%Z ->
  Forall (fun z => (0 < comparefn x z)%Z) l -> ties a l = [].
Proof.
  intros Hax. induction 1 as [|z l Hz _ IH]; [reflexivity|].
  unfold ties in *. cbn [filter]. rewrite IH.
  destruct (Z.eqb_spec (comparefn a z) 0) as [Haz|_]; [|reflexivity].
  pose proof (comparefn_swap a x) as Hs.
  assert (Hxa : (comparefn x a <= 0)%Z) by lia.
  assert (Haz' : (comparefn a z <= 0)%Z) by lia.
  pose proof (comparefn_trans x a z Hxa Haz'). lia.
Qed.

(** The sort is stable: elements that compare equal keep their order. *)
Lemma sort_stable (a : A) (l : list A) :
  ties a (ArraySort.sort comparefn l) = ties a l.
Proof.
  induction l as [|x l IH]; [reflexivity|].
  cbn [ArraySort.sort].
  destruct (insert_place x (ArraySort.sort comparefn l)) as (l1 & l2 & E & Ei & Hall).
  rewrite Ei, ties_app. rewrite E, ties_app in IH.
  unfold ties at 2 3. cbn [filter]. fold (ties a l2). fold (ties a l).
  destruct (Z.eqb_spec (comparefn a x) 0) as [Hax|Hax].
  - rewrite (no_tie_among_smaller a x l1 Hax Hall) in IH |- *.
    cbn [app] in IH |- *. rewrite IH. reflexivity.
  - exact IH.
Qed.

End SortMore.

Lemma eqb_eq (s t : jsstring) : Js.eqb s t = true <-> s = t.
Proof.
  revert t. induction s as [|c s IH]; intros [|d t]; simpl;
    try (split; [discriminate|discriminate]); [tauto|].
  rewrite andb_true_iff, N.eqb_eq, IH. split.
  - intros [-> ->]. reflexivity.
  - intros E. inversion E. auto.
Qed.

Section BrowserMore.
Context {H : Host} {C : Collator}.
Variable repo : Repository.
Variable token : jsstring.

Import FileExplorer.

(** When [getContents] fails, [fetchContents] shows the empty folder: the
    error goes to the console, no alert is shown, and nothing is thrown. *)
Theorem fetchContents_failure_shows_empty :
  forall (p : jsstring) (st : State) (w : World) (err : Thrown),
    answer AsContents (contents_request repo token p) w = inl err ->
    exists (st' : State) (w' : World),
      fetchContents repo token p (st, w) = (inr tt, (st', w'))
      /\ entries st' = []
      /\ view st' = Empty (currentPath st)
      /\ alerts w' = alerts w
      /\ console w' = console w ++ [err]
      /\ sent w' = sent w ++ [contents_request repo token p].
Proof.
  intros p st w err Hans. rewrite fetchContents_run, Hans.
  eexists. eexists. split; [reflexivity|]. repeat split.
Qed.

(** A list the remote gives in the order of display is displayed as it is;
    this is the case of the list a previous fetch displayed. *)
Theorem fetchContents_keeps_displayed_order :
  forall (p : jsstring) (st : State) (w : World) (previous : list FileEntry),
    answer AsContents (contents_request repo token p) w
      = inr (Some (IsArray (ArraySort.sort compare_entries previous))) ->
    entries (fst (snd (fetchContents repo token p (st, w))))
      = map Some (ArraySort.sort compare_entries previous).
Proof.
  intros p st w previous Hans. rewrite fetchContents_run, Hans.
  cbn [fst snd entries listed]. f_equal. apply sort_of_sorted.
  apply sort_StronglySorted.
  - intros a b. apply compare_entries_swap.
  - intros a b c. apply compare_entries_trans.
Qed.

(** Entries that the comparison of [fetchContents] does not tell apart (same
    kind, names that [localeCompare] finds equal) are displayed in the order
    the remote gave them. *)
Theorem fetchContents_keeps_order_of_equal_names :
  forall (p : jsstring) (st : State) (w : World) (items : list FileEntry),
    answer AsContents (contents_request repo token p) w
      = inr (Some (IsArray items)) ->
    exists shown : list FileEntry,
      entries (fst (snd (fetchContents repo token p (st, w)))) = map Some shown
      /\ forall a : FileEntry,
           ties compare_entries a shown = ties compare_entries a items.
Proof.
  intros p st w items Hans. rewrite fetchContents_run, Hans.
  exists (ArraySort.sort compare_entries items). split; [reflexivity|].
  intros a. apply sort_stable.
  - intros x y. apply compare_entries_swap.
  - intros x y z. apply compare_entries_trans.
Qed.

Definition too_large : jsstring := js "File is too large to display or is binary.".
Definition not_loaded : jsstring := js "Error loading content.".

(** The text [handleEntryClick] shows for an outcome of [getContents]. *)
Definition text_for (data : Thrown + option Contents) : jsstring :=
  match data with
  | inl _ => not_loaded
  | inr None => not_loaded
  | inr (Some (IsArray _)) => too_large
  | inr (Some (IsEntry d)) =>
      match content d with
      | Some text =>
          if truthy text then
            match decode_content text with
            | Some decoded => decoded
            | None => not_loaded
            end
          else too_large
      | None => too_large
      end
  end.

Lemma handleEntryClick_run (entry : FileEntry) (st : State) (w : World) :
  type entry = file ->
  handleEntryClick repo token entry (st, w) =
    (inr tt,
     ({| currentPath := currentPath st;
         entries := entries st;
         loading := false;
         selectedFile := Some entry;
         fileContent :=
           Some (text_for (answer AsContents
                             (contents_request repo token (path entry)) w));
         uploading := uploading st;
         uploadStatus := uploadStatus st;
         isMenuOpen := isMenuOpen st |},
      answered AsContents (contents_request repo token (path entry)) w)).
Proof.
  intros Htype. unfold FileExplorer.handleEntryClick. rewrite Htype.
  unfold Github.getContents. run_monad. rewrite githubFetch_run.
  unfold answer, answered, contents_request, text_for. simpl.
  destruct (Github.settle _) as [err|[[items|data]|]]; simpl; try reflexivity.
  destruct (content data) as [text|]; [|reflexivity].
  destruct (truthy text); [|reflexivity].
  destruct (decode_content text); reflexivity.
Qed.

(** Clicking a file sends one request, for the path of the entry, and always
    ends with that entry selected and a text shown for it, whatever the
    remote answers: nothing is thrown, no alert is shown, and the listing and
    the current path are left as they were. *)
Theorem handleEntryClick_file_ends_viewing :
  forall (entry : FileEntry) (st : State) (w : World),
    type entry = file ->
    exists (text : jsstring) (st' : State) (w' : World),
      handleEntryClick repo token entry (st, w) = (inr tt, (st', w'))
      /\ view st' = ViewingFile (currentPath st) entry (Some text)
      /\ entries st' = entries st
      /\ sent w' = sent w ++ [contents_request repo token (path entry)]
      /\ alerts w' = alerts w
      /\ console w' = console w.
Proof.
  intros entry st w Htype. rewrite handleEntryClick_run by exact Htype.
  eexists. eexists. eexists. split; [reflexivity|]. repeat split.
Qed.

(** When the request for the file fails, the text shown is
    ["Error loading content."]; the message of the error is not shown. *)
Theorem handleEntryClick_request_failure :
  forall (entry : FileEntry) (st : State) (w : World) (err : Thrown),
    type entry = file ->
    answer AsContents (contents_request repo token (path entry)) w = inl err ->
    fileContent (fst (snd (handleEntryClick repo token entry (st, w))))
      = Some (js "Error loading content.")
    /\ alerts (snd (snd (handleEntryClick repo token entry (st, w)))) = alerts w.
Proof.
  intros entry st w err Htype Hans.
  rewrite handleEntryClick_run by exact Htype. rewrite Hans. split; reflexivity.
Qed.

(** When the remote sends the file without content, or with an empty one,
    the text shown is ["File is too large to display or is binary."]. *)
Theorem handleEntryClick_without_content :
  forall (entry data : FileEntry) (st : State) (w : World),
    type entry = file ->
    answer AsContents (contents_request repo token (path entry)) w
      = inr (Some (IsEntry data)) ->
    content data = None \/ content data = Some [] ->
    fileContent (fst (snd (handleEntryClick repo token entry (st, w))))
      = Some (js "File is too large to display or is binary.").
Proof.
  intros entry data st w Htype Hans Hcontent.
  rewrite handleEntryClick_run by exact Htype. rewrite Hans.
  cbn [fst snd fileContent text_for].
  destruct Hcontent as [-> | ->]; reflexivity.
Qed.

(** When the content is not base64 that [atob] accepts, the text shown is
    ["Error loading content."]. *)
Theorem handleEntryClick_content_not_base64 :
  forall (entry data : FileEntry) (text : jsstring) (st : State) (w : World),
    type entry = file ->
    answer AsContents (contents_request repo token (path entry)) w
      = inr (Some (IsEntry data)) ->
    content data = Some text ->
    Base64.atob (remove_newlines text) = None ->
    fileContent (fst (snd (handleEntryClick repo token entry (st, w))))
      = Some (js "Error loading content.").
Proof.
  intros entry data text st w Htype Hans Hcontent Hatob.
  rewrite handleEntryClick_run by exact Htype. rewrite Hans.
  cbn [fst snd fileContent text_for]. rewrite Hcontent.
  unfold decode_content, content_bytes. rewrite Hatob.
  destruct (truthy text) eqn:E; [reflexivity|].
  destruct text; [|discriminate]. discriminate Hatob.
Qed.

(** Clicking a folder other than the current one makes its path the current
    path and fetches its listing: one request, for that path, and no file
    selected afterwards. *)
Theorem handleEntryClick_folder_navigates :
  forall (entry : FileEntry) (st : State) (w : World),
    type entry = dir ->
    path entry <> currentPath st ->
    exists (st' : State) (w' : World),
      handleEntryClick repo token entry (st, w) = (inr tt, (st', w'))
      /\ currentPath st' = path entry
      /\ selectedFile st' = None
      /\ loading st' = false
      /\ entries st'
         = listed (answer AsContents (contents_request repo token (path entry)) w)
      /\ sent w' = sent w ++ [contents_request repo token (path entry)].
Proof.
  intros entry st w Htype Hpath.
  unfold FileExplorer.handleEntryClick. rewrite Htype.
  unfold FileExplorer.navigate.
  unfold FileExplorer.set, bind, gets, modify. cbn [fst snd].
  destruct (Js.eqb (currentPath st) (path entry)) eqn:E.
  { apply eqb_eq in E. congruence. }
  rewrite fetchContents_run. eexists. eexists. split; [reflexivity|].
  cbn [currentPath entries selectedFile loading setCurrentPath].
  repeat split.
  unfold logged. destruct (answer AsContents _ _); reflexivity.
Qed.

(** Without a selected file, or when the user does not confirm,
    [handleDelete] does nothing: no request is sent and the state is the
    same. *)
Theorem handleDelete_needs_selection_and_confirmation :
  forall (answer_given : bool) (st : State) (w : World),
    selectedFile st = None \/ answer_given = false ->
    handleDelete repo token answer_given (st, w) = (inr tt, (st, w)).
Proof.
  intros a st w Hno. unfold FileExplorer.handleDelete.
  unfold bind, gets, ret. cbn [fst snd].
  destruct (selectedFile st) as [f|]; [|reflexivity].
  destruct Hno as [Hs| ->]; [discriminate|reflexivity].
Qed.

(** When every file of the queue is committed, [handleFileUpload] has sent
    the commits of the files, in the order of the queue, and then one request
    for the listing of the current path; it shows no alert and leaves the
    status ["Upload complete!"] and the listing that request gave. *)
Theorem handleFileUpload_all_committed :
  forall (st : State) (w : World) (files : list File)
         (reqs : list Request) (n1 : Net),
    files <> [] ->
    Committed repo token (currentPath st) files (net w) reqs n1 ->
    exists (st' : State) (w' : World),
      handleFileUpload repo token files (st, w) = (inr tt, (st', w'))
      /\ sent w' = sent w ++ reqs ++ [contents_request repo token (currentPath st)]
      /\ alerts w' = alerts w
      /\ uploadStatus st' = js "Upload complete!"
      /\ uploading st' = false
      /\ loading st' = false
      /\ selectedFile st' = None
      /\ entries st'
         = listed (answer AsContents (contents_request repo token (currentPath st))
                     {| net := n1; sent := sent w ++ reqs;
                        alerts := alerts w; console := console w |}).
Proof.
  intros st w files reqs n1 Hne Hall.
  rewrite handleFileUpload_run by exact Hne.
  destruct (upload_loop_committed repo token _ _ _ _ _ Hall []
              (setIsMenuOpen false (setUploading true st)) w eq_refl)
    as [status E].
  rewrite app_nil_r in E. rewrite E. cbn [FileExplorer.upload_loop ret].
  rewrite fetchContents_run. cbn [fst snd].
  eexists. eexists. split; [reflexivity|].
  cbn [uploadStatus uploading loading selectedFile entries setUploading
       setUploadStatus].
  repeat split.
  - unfold logged, answered.
    destruct (answer AsContents _ _); cbn [sent]; rewrite <- app_assoc;
      reflexivity.
  - unfold logged, answered. destruct (answer AsContents _ _); reflexivity.
Qed.

(** When the files before the k-th are committed and the k-th cannot be
    read, no request is sent for it nor for the files after it, and the alert
    reads ["Upload failed: undefined"]: what the reader rejects with has no
    message. *)
Theorem handleFileUpload_unreadable_file :
  forall (st : State) (w : World) (pre post : list File) (f : File)
         (reqs : list Request) (n1 : Net),
    Committed repo token (currentPath st) pre (net w) reqs n1 ->
    file_bytes f = None ->
    handleFileUpload repo token (pre ++ f :: post) (st, w) =
      (inr tt,
       ({| currentPath := currentPath st;
           entries := entries st;
           loading := loading st;
           selectedFile := selectedFile st;
           fileContent := fileContent st;
           uploading := false;
           uploadStatus := [];
           isMenuOpen := false |},
        {| net := n1;
           sent := sent w ++ reqs;
           alerts := alerts w ++ [js "Upload failed: undefined"];
           console := console w |})).
Proof.
  intros st w pre post f reqs n1 Hpre Hbytes.
  rewrite handleFileUpload_run by (destruct pre; discriminate).
  destruct (upload_loop_committed repo token _ _ _ _ _ Hpre (f :: post)
              (setIsMenuOpen false (setUploading true st)) w eq_refl)
    as [status E].
  rewrite E. clear E. cbn [FileExplorer.upload_loop]. unfold bind at 1.
  rewrite upload_one_run. cbv zeta.
  unfold Github.toBase64 at 1. rewrite Hbytes. reflexivity.
Qed.

End BrowserMore.

(* ================================================================== *)
(** * The breadcrumbs of the repository browser *)
(* ================================================================== *)

Module Breadcrumbs.

Definition slash : code_unit := 47.

(** [s.split('/')] *)
Fixpoint split (s : jsstring) : list jsstring :=
  match s with
  | [] => [[]]
  | c :: rest =>
      if c =? slash then [] :: split rest
      else
        match split rest with
        | segment :: segments => (c :: segment) :: segments
        | [] => [[c]]
        end
  end.

(** [currentPath.split('/').filter(Boolean)] *)
Definition breadcrumbs (currentPath : jsstring) : list jsstring :=
  filter truthy (split currentPath).

(** [breadcrumbs.slice(0, index + 1).join('/')] *)
Definition crumb_path (crumbs : list jsstring) (index : nat) : jsstring :=
  join_with (js "/") (firstn (S index) crumbs).

Section Clicks.
Context {H : Host} {C : Collator}.
Variable repo : Repository.
Variable token : jsstring.

(** [setCurrentPath(path); setSelectedFile(null)] of a click in the
    breadcrumbs, followed by the effect that fetches the listing when the
    current path has changed. *)
Definition go_to (path : jsstring) : M FileExplorer.UI unit :=
  before <- gets (fun ui => FileExplorer.currentPath (fst ui)) ;;
  FileExplorer.set (FileExplorer.setCurrentPath path) ;;
  FileExplorer.set (FileExplorer.setSelectedFile None) ;;
  if Js.eqb before path then ret tt
  else FileExplorer.fetchContents repo token path.

(** The click on [root]. *)
Definition root_click : M FileExplorer.UI unit := go_to [].

(** The click on the breadcrumb at [index]. *)
Definition crumb_click (index : nat) : M FileExplorer.UI unit :=
  path <- gets (fun ui =>
            crumb_path (breadcrumbs (FileExplorer.currentPath (fst ui))) index) ;;
  go_to path.

End Clicks.
End Breadcrumbs.

Section BreadcrumbFacts.

Import Breadcrumbs.

(** A name of a folder or of a file: not empty, without a slash. *)
Definition is_segment (s : jsstring) : Prop :=
  s <> [] /\ Forall (fun c => c <> slash) s.

Lemma split_not_empty (s : jsstring) : split s <> [].
Proof.
  induction s as [|c s IH]; simpl; [discriminate|].
  destruct (c =? slash); [discriminate|].
  destruct (split s); discriminate.
Qed.

Lemma split_segment (s : jsstring) :
  Forall (fun c => c <> slash) s -> split s = [s].
Proof.
  induction 1 as [|c s Hc _ IH]; [reflexivity|].
  simpl. destruct (N.eqb_spec c slash); [contradiction|].
  rewrite IH. reflexivity.
Qed.

Lemma split_segment_slash (s rest : jsstring) :
  Forall (fun c => c <> slash) s ->
  split (s ++ slash :: rest) = s :: split rest.
Proof.
  induction 1 as [|c s Hc _ IH].
  - reflexivity.
  - cbn [app split]. destruct (N.eqb_spec c slash); [contradiction|].
    rewrite IH. reflexivity.
Qed.

(** The pieces [split] gives have no slash. *)
Lemma split_pieces (s : jsstring) :
  Forall (Forall (fun c => c <> slash)) (split s).
Proof.
  induction s as [|c s IH]; simpl; [repeat constructor|].
  destruct (N.eqb_spec c slash) as [E|E].
  - constructor; [constructor|exact IH].
  - destruct (split s) as [|segment segments]; [repeat constructor; exact E|].
    inversion IH; subst. constructor; [constructor; assumption|assumption].
Qed.

Lemma breadcrumbs_are_segments (p : jsstring) : Forall is_segment (breadcrumbs p).
Proof.
  unfold breadcrumbs. apply Forall_forall. intros s Hs.
  apply filter_In in Hs. destruct Hs as [Hin Ht]. split.
  - destruct s; [discriminate|discriminate].
  - pose proof (split_pieces p) as Hp. rewrite Forall_forall in Hp.
    apply Hp, Hin.
Qed.

(** Joining names with slashes and splitting gives the names back. *)
Lemma breadcrumbs_join (segments : list jsstring) :
  Forall is_segment segments ->
  breadcrumbs (join_with (js "/") segments) = segments.
Proof.
  unfold breadcrumbs.
  induction 1 as [|s segments [Hne Hs] Hrest IH]; [reflexivity|].
  destruct segments as [|s' segments].
  - cbn [join_with]. rewrite split_segment by exact Hs.
    cbn [filter]. destruct s; [contradiction|reflexivity].
  - change (join_with (js "/") (s :: s' :: segments))
      with (s ++ slash :: join_with (js "/") (s' :: segments)).
    rewrite split_segment_slash by exact Hs.
    cbn [filter]. rewrite IH. destruct s; [contradiction|reflexivity].
Qed.

(** For every current path, the breadcrumbs are names, and the path of the
    last breadcrumb has the same breadcrumbs as the current path: empty
    pieces (a slash at an end, two slashes in a row) are the only thing a
    click on it loses. *)
Theorem breadcrumbs_of_last_crumb_path :
  forall p : jsstring,
    Forall is_segment (breadcrumbs p)
    /\ breadcrumbs
         (crumb_path (breadcrumbs p) (pred (List.length (breadcrumbs p))))
       = breadcrumbs p.
Proof.
  intros p. pose proof (breadcrumbs_are_segments p) as Hseg.
  split; [exact Hseg|]. unfold crumb_path.
  rewrite firstn_all2 by lia. apply breadcrumbs_join, Hseg.
Qed.

(** For a path made of names joined by slashes, as the remote gives them,
    the breadcrumbs are those names, and the breadcrumb at [index] leads to
    the path made of the names up to it; the last one leads to the path
    itself. *)
Theorem breadcrumbs_of_joined_names :
  forall (segments : list jsstring) (index : nat),
    Forall is_segment segments ->
    let p := join_with (js "/") segments in
    breadcrumbs p = segments
    /\ crumb_path (breadcrumbs p) index
       = join_with (js "/") (firstn (S index) segments)
    /\ crumb_path (breadcrumbs p) (pred (List.length segments)) = p.
Proof.
  intros segments index Hseg p. subst p.
  rewrite breadcrumbs_join by exact Hseg.
  split; [reflexivity|]. split; [reflexivity|].
  unfold crumb_path. rewrite firstn_all2 by lia. reflexivity.
Qed.

Lemma eqb_same (s : jsstring) : Js.eqb s s = true.
Proof. apply eqb_eq. reflexivity. Qed.

Context {H : Host} {C : Collator}.
Variable repo : Repository.
Variable token : jsstring.

(** While a file is shown, the click on the last breadcrumb of a path made
    of names goes back to the listing that was fetched before: the file is
    not selected any more, and no request is sent. *)
Theorem last_crumb_click_closes_file :
  forall (segments : list jsstring) (st : FileExplorer.State) (w : World),
    segments <> [] ->
    Forall is_segment segments ->
    FileExplorer.currentPath st = join_with (js "/") segments ->
    crumb_click repo token (pred (List.length segments)) (st, w)
      = (inr tt, (FileExplorer.setSelectedFile None st, w)).
Proof.
  intros segments st w _ Hseg Hpath.
  unfold crumb_click, go_to, FileExplorer.set, bind, gets, modify, ret.
  cbn [fst snd].
  assert (Hlast : crumb_path (breadcrumbs (join_with (js "/") segments))
                    (pred (List.length segments)) = join_with (js "/") segments).
  { unfold crumb_path. rewrite breadcrumbs_join by exact Hseg.
    rewrite firstn_all2 by lia. reflexivity. }
  rewrite Hpath, Hlast, eqb_same.
  destruct st; cbn in Hpath |- *; subst; reflexivity.
Qed.

(** A click in the breadcrumbs on a path other than the current one makes it
    the current path and fetches its listing, with one request. *)
Theorem go_to_other_path_fetches :
  forall (p : jsstring) (st : FileExplorer.State) (w : World),
    p <> FileExplorer.currentPath st ->
    exists (st' : FileExplorer.State) (w' : World),
      go_to repo token p (st, w) = (inr tt, (st', w'))
      /\ FileExplorer.currentPath st' = p
      /\ FileExplorer.selectedFile st' = None
      /\ FileExplorer.entries st'
         = listed (answer AsContents (contents_request repo token p) w)
      /\ sent w' = sent w ++ [contents_request repo token p].
Proof.
  intros p st w Hp.
  unfold go_to, FileExplorer.set, bind, gets, modify. cbn [fst snd].
  destruct (Js.eqb (FileExplorer.currentPath st) p) eqn:E.
  { apply eqb_eq in E. congruence. }
  rewrite fetchContents_run. eexists. eexists. split; [reflexivity|].
  repeat split.
  unfold logged. destruct (answer AsContents _ _); reflexivity.
Qed.

End BreadcrumbFacts.

(* ================================================================== *)
(** * More about the creation of a repository *)
(* ================================================================== *)

Section CreateMore.
Context {H : Host}.

Lemma handleCreateRepo_fails :
  forall (st : App.State) (w : World) (tok name : jsstring) (isPrivate : bool)
         (err : Thrown),
    App.token (App.authData st) = Some tok ->
    tok <> [] ->
    Github.settle
      (fst (fetch AsRepository (create_request tok name isPrivate) (net w)))
      = inl err ->
    App.handleCreateRepo name isPrivate (st, w) =
      (inl err,
       (st,
        {| net := snd (fetch AsRepository (create_request tok name isPrivate) (net w));
           sent := sent w ++ [create_request tok name isPrivate];
           alerts := alerts w;
           console := console w ++ [err] |})).
Proof.
  intros st w tok name isPrivate err Htok Hne Hfail.
  unfold App.handleCreateRepo. run_monad. rewrite Htok.
  destruct tok as [|c tok]; [contradiction|]. simpl.
  rewrite createRepo_run, Hfail. reflexivity.
Qed.

(** When [createRepo] fails, [handleCreateRepo] leaves the list as it is,
    writes the error to the console and throws it again to its caller. *)
Theorem handleCreateRepo_failure_rethrows :
  forall (st : App.State) (w : World) (tok name : jsstring) (isPrivate : bool)
         (err : Thrown),
    App.token (App.authData st) = Some tok ->
    tok <> [] ->
    Github.settle
      (fst (fetch AsRepository (create_request tok name isPrivate) (net w)))
      = inl err ->
    App.handleCreateRepo name isPrivate (st, w) =
      (inl err,
       (st,
        {| net := snd (fetch AsRepository (create_request tok name isPrivate) (net w));
           sent := sent w ++ [create_request tok name isPrivate];
           alerts := alerts w;
           console := console w ++ [err] |})).
Proof. exact handleCreateRepo_fails. Qed.

(** Without a token, or with an empty one, [handleCreateRepo] returns at
    once: no request is sent and nothing changes. *)
Theorem handleCreateRepo_without_token :
  forall (st : App.State) (w : World) (name : jsstring) (isPrivate : bool),
    App.token (App.authData st) = None \/ App.token (App.authData st) = Some [] ->
    App.handleCreateRepo name isPrivate (st, w) = (inr tt, (st, w)).
Proof.
  intros st w name isPrivate Htok. unfold App.handleCreateRepo. run_monad.
  destruct Htok as [-> | ->]; reflexivity.
Qed.

Variable P : Type.
Variable onCreateRepo : jsstring -> bool -> M (P * World) unit.

Lemma handleCreate_cases :
  forall (st : RepoList.State) (o : P * World),
    RepoList.newRepoName st <> [] ->
    match onCreateRepo (RepoList.newRepoName st) (RepoList.newRepoPrivate st) o with
    | (inl _, (p', w')) =>
        RepoList.handleCreate P onCreateRepo (st, o) =
          (inr tt,
           (RepoList.setCreating false st,
            (p', {| net := net w'; sent := sent w';
                    alerts := alerts w' ++ [js "Failed to create repository"];
                    console := console w' |})))
    | (inr _, o') =>
        RepoList.handleCreate P onCreateRepo (st, o) =
          (inr tt,
           ({| RepoList.searchTerm := RepoList.searchTerm st;
               RepoList.showCreateModal := false;
               RepoList.newRepoName := [];
               RepoList.newRepoPrivate := RepoList.newRepoPrivate st;
               RepoList.creating := false |}, o'))
    end.
Proof.
  intros st o Hname.
  unfold RepoList.handleCreate, RepoList.alert_user.
  unfold RepoList.set, RepoList.outside, alert.
  unfold bind, gets, modify, ret, try_catch, finally. simpl.
  destruct (RepoList.newRepoName st) as [|c name] eqn:En; [contradiction|].
  simpl.
  destruct (onCreateRepo (c :: name) (RepoList.newRepoPrivate st) o)
    as [[e|[]] [p' w']]; simpl.
  - unfold RepoList.setCreating. simpl. rewrite En. reflexivity.
  - reflexivity.
Qed.

(** [handleCreate] with a name in the field calls [onCreateRepo] once, with
    the name and the flag of the form.  When the call throws, the user gets
    the alert ["Failed to create repository"], which does not tell the error,
    and the form is left open with the name in it; when it returns, the form
    is closed and the name is emptied.  In both cases [creating] ends false. *)
Theorem handleCreate_outcomes :
  forall (st : RepoList.State) (o : P * World),
    RepoList.newRepoName st <> [] ->
    match onCreateRepo (RepoList.newRepoName st) (RepoList.newRepoPrivate st) o with
    | (inl _, (p', w')) =>
        RepoList.handleCreate P onCreateRepo (st, o) =
          (inr tt,
           (RepoList.setCreating false st,
            (p', {| net := net w'; sent := sent w';
                    alerts := alerts w' ++ [js "Failed to create repository"];
                    console := console w' |})))
    | (inr _, o') =>
        RepoList.handleCreate P onCreateRepo (st, o) =
          (inr tt,
           ({| RepoList.searchTerm := RepoList.searchTerm st;
               RepoList.showCreateModal := false;
               RepoList.newRepoName := [];
               RepoList.newRepoPrivate := RepoList.newRepoPrivate st;
               RepoList.creating := false |}, o'))
    end.
Proof. exact handleCreate_cases. Qed.

End CreateMore.

Section NameMore.

Import RepoList.

Lemma replace_from_clean (value : jsstring) :
  no_whitespace value -> forall in_match, replace_from in_match value = value.
Proof.
  induction 1 as [|c value Hc _ IH]; intros in_match; [reflexivity|].
  cbn [replace_from]. rewrite Hc, IH. reflexivity.
Qed.

Lemma replace_whitespace_idempotent (value : jsstring) :
  replace_whitespace (replace_whitespace value) = replace_whitespace value.
Proof.
  unfold replace_whitespace. apply replace_from_clean, replace_from_no_whitespace.
Qed.

(** A value without white space is stored as it is typed: hyphens and every
    other character are kept. *)
Theorem replace_whitespace_keeps_clean_names :
  forall value : jsstring,
    Forall (fun c => whitespace c = false) value ->
    replace_whitespace value = value.
Proof.
  intros value Hclean. unfold replace_whitespace.
  apply replace_from_clean, Hclean.
Qed.

Context {H : Host}.

(** The request creates a repository with a name that is not empty, with a
    first commit asked for and the description of the application. *)
Definition creates_named (r : Request) : Prop :=
  exists (name : jsstring) (isPrivate : bool),
    name <> []
    /\ method r = POST
    /\ url r = js "https://api.github.com/user/repos"
    /\ body r = CreateRepoBody
                  {| cr_name := name; cr_private := isPrivate;
                     cr_description := Some (js "Created via GitLite Mobile");
                     cr_auto_init := Some true |}.

Lemma handleCreateRepo_requests (name : jsstring) (isPrivate : bool)
    (st : App.State) (w : World) :
  exists reqs : list Request,
    sent (snd (snd (App.handleCreateRepo name isPrivate (st, w)))) = sent w ++ reqs
    /\ Forall (fun r => exists tok, r = create_request tok name isPrivate) reqs.
Proof.
  unfold App.handleCreateRepo. run_monad.
  destruct (App.token (App.authData st)) as [tok|].
  - destruct (truthy tok); simpl.
    + rewrite createRepo_run. simpl.
      destruct (Github.settle _) as [e|r]; simpl;
        (eexists; split; [reflexivity|]);
        (constructor; [exists tok; reflexivity|constructor]).
    + exists []. rewrite app_nil_r. split; [reflexivity|constructor].
  - exists []. simpl. rewrite app_nil_r. split; [reflexivity|constructor].
Qed.

Lemma handle_requests_named (e : Event) (ui : RepoList.UI App.State) :
  exists reqs : list Request,
    sent_by (snd (handle App.State App.handleCreateRepo e ui)) = sent_by ui ++ reqs
    /\ Forall creates_named reqs.
Proof.
  destruct ui as [st [app w]]. unfold sent_by.
  destruct e; simpl;
    try (exists []; rewrite app_nil_r; split; [reflexivity|constructor]).
  unfold handleCreate, RepoList.set, outside, alert_user. run_monad.
  destruct (newRepoName st) as [|c name] eqn:En; simpl.
  - exists []. rewrite app_nil_r. split; [reflexivity|constructor].
  - destruct (handleCreateRepo_requests (c :: name) (newRepoPrivate st) app w)
      as (reqs & E & Hall).
    assert (Hnamed : Forall creates_named reqs).
    { eapply Forall_impl; [|exact Hall]. intros r [tok ->].
      exists (c :: name), (newRepoPrivate st).
      split; [discriminate|]. repeat split. }
    destruct (App.handleCreateRepo (c :: name) (newRepoPrivate st) (app, w))
      as [[err|[]] [app' w']]; simpl in E |- *; exists reqs; auto.
Qed.

(** Whatever the user does in the repository list, every request sent is the
    creation of a repository under [/user/repos], with a name that is not
    empty, a first commit asked for ([auto_init]) and the description
    ["Created via GitLite Mobile"]. *)
Theorem session_only_creates_named_repositories :
  forall (events : list Event) (ui : RepoList.UI App.State),
    exists reqs : list Request,
      sent_by (App.repo_list_session events ui) = sent_by ui ++ reqs
      /\ Forall creates_named reqs.
Proof.
  unfold App.repo_list_session.
  induction events as [|e events IH]; intros ui.
  - exists []. simpl. rewrite app_nil_r. split; [reflexivity|constructor].
  - simpl. destruct (handle_requests_named e ui) as (reqs1 & E1 & H1).
    destruct (IH (snd (handle App.State App.handleCreateRepo e ui)))
      as (reqs2 & E2 & H2).
    exists (reqs1 ++ reqs2). rewrite E2, E1, <- app_assoc.
    split; [reflexivity|]. apply Forall_app. split; assumption.
Qed.

End NameMore.

Section SubmitMore.
Context {H : Host}.

Import RepoList.

(** Submitting the form of the repository list with a name, in the
    application with a token: one request is sent, for the creation of a
    repository with the name and the flag of the form.  When the remote
    refuses, the user gets the alert ["Failed to create repository"], the
    error is written to the console, the list is unchanged and the form
    stays open with the name; when the remote accepts, what it returned is
    put first in the list, the form is closed and the name emptied. *)
Theorem submit_creates_or_alerts :
  forall (st : RepoList.State) (app : App.State) (w : World) (tok : jsstring),
    newRepoName st <> [] ->
    App.token (App.authData app) = Some tok ->
    tok <> [] ->
    let req := create_request tok (newRepoName st) (newRepoPrivate st) in
    match Github.settle (fst (fetch AsRepository req (net w))) with
    | inl err =>
        handle App.State App.handleCreateRepo Submit (st, (app, w)) =
          (inr tt,
           (setCreating false st,
            (app,
             {| net := snd (fetch AsRepository req (net w));
                sent := sent w ++ [req];
                alerts := alerts w ++ [js "Failed to create repository"];
                console := console w ++ [err] |})))
    | inr newRepo =>
        handle App.State App.handleCreateRepo Submit (st, (app, w)) =
          (inr tt,
           ({| searchTerm := searchTerm st;
               showCreateModal := false;
               newRepoName := [];
               newRepoPrivate := newRepoPrivate st;
               creating := false |},
            (App.setRepos (newRepo :: App.repos app) app,
             {| net := snd (fetch AsRepository req (net w));
                sent := sent w ++ [req];
                alerts := alerts w;
                console := console w |})))
    end.
Proof.
  intros st app w tok Hname Htok Hne req. subst req.
  cbn [handle].
  pose proof (handleCreate_cases App.State App.handleCreateRepo st (app, w) Hname)
    as Hout.
  destruct (Github.settle _) as [err|newRepo] eqn:Hans.
  - rewrite (handleCreateRepo_fails app w tok _ _ err Htok Hne Hans)
      in Hout.
    exact Hout.
  - assert (Hrun : App.handleCreateRepo (newRepoName st) (newRepoPrivate st) (app, w)
                   = (inr tt,
                      (App.setRepos (newRepo :: App.repos app) app,
                       {| net := snd (fetch AsRepository
                                        (create_request tok (newRepoName st)
                                           (newRepoPrivate st)) (net w));
                          sent := sent w ++ [create_request tok (newRepoName st)
                                               (newRepoPrivate st)];
                          alerts := alerts w; console := console w |}))).
    { unfold App.handleCreateRepo. run_monad. rewrite Htok.
      destruct tok as [|c tok]; [contradiction|]. simpl.
      rewrite createRepo_run, Hans. reflexivity. }
    rewrite Hrun in Hout. exact Hout.
Qed.

End SubmitMore.

(* ================================================================== *)
(** * More about the content of files *)
(* ================================================================== *)

Section ContentMore.

(** [atob] does not look at white space. *)
Lemma atob_without_whitespace (data : jsstring) :
  Base64.atob data
    = Base64.atob (filter (fun c => negb (Base64.ascii_whitespace c)) data).
Proof.
  unfold Base64.atob.
  assert (E : filter (fun c => negb (Base64.ascii_whitespace c))
                (filter (fun c => negb (Base64.ascii_whitespace c)) data)
              = filter (fun c => negb (Base64.ascii_whitespace c)) data).
  { apply filter_all. apply Forall_forall. intros c Hc.
    apply filter_In in Hc. tauto. }
  rewrite E. reflexivity.
Qed.

Lemma whitespace_after_newlines (data : jsstring) :
  filter (fun c => negb (Base64.ascii_whitespace c))
    (FileExplorer.remove_newlines data)
  = filter (fun c => negb (Base64.ascii_whitespace c)) data.
Proof.
  unfold FileExplorer.remove_newlines.
  induction data as [|c data IH]; [reflexivity|].
  cbn [filter]. destruct (N.eqb_spec c 10) as [->|Hc]; cbn [negb filter].
  - exact IH.
  - rewrite IH. reflexivity.
Qed.

(** The bytes of a file of any content come back from what [toBase64] made
    of it, also when the remote has put line breaks or other white space in
    the base64, as it does when it wraps the lines of a content. *)
Theorem bytes_survive_wrapped_base64 :
  forall (S : Type) (f : File) (bytes : list byte) (st : S)
         (encoded wire : jsstring),
    plain_media_type f = true ->
    file_bytes f = Some bytes ->
    Github.toBase64 f st = (inr encoded, st) ->
    filter (fun c => negb (Base64.ascii_whitespace c)) wire = encoded ->
    FileExplorer.content_bytes wire = Some bytes.
Proof.
  intros S f bytes st encoded wire Hplain Hbytes Hencoded Hwire.
  rewrite (toBase64_encode S f bytes st Hplain Hbytes) in Hencoded.
  injection Hencoded as Henc. rewrite <- Henc in Hwire. clear Henc.
  pose proof (content_bytes_encode bytes) as Hround.
  unfold FileExplorer.content_bytes in Hround |- *.
  rewrite atob_without_whitespace, whitespace_after_newlines, Hwire.
  rewrite atob_without_whitespace, whitespace_after_newlines in Hround.
  rewrite filter_all in Hround; [exact Hround|].
  eapply Forall_impl; [|apply encode_characters].
  intros c (Hw & _). rewrite Hw. reflexivity.
Qed.

(** A text that starts with a byte order mark is shown without the mark and
    with the rest as it is. *)
Theorem text_after_byte_order_mark_is_shown :
  forall (S : Type) (f : File) (text : list Utf8.code_point) (st : S),
    all_scalar text = true ->
    plain_media_type f = true ->
    file_bytes f = Some (Utf8.encode (Utf8.BOM :: text)) ->
    exists encoded : jsstring,
      Github.toBase64 f st = (inr encoded, st)
      /\ FileExplorer.decode_content encoded = Some (Utf8.utf16 text).
Proof.
  intros S f text st Htext Hplain Hbytes.
  exists (Base64.encode (Utf8.encode (Utf8.BOM :: text))).
  split; [apply toBase64_encode; assumption|].
  rewrite decode_content_encode; [reflexivity|].
  unfold all_scalar in *. cbn [forallb]. rewrite Htext. reflexivity.
Qed.

End ContentMore.

(* ================================================================== *)
(** * Runs of the properties above on the scripted remote *)
(* ================================================================== *)

Module MoreExamples.

Definition notes_with (text : option jsstring) : FileEntry :=
  {| name := js "notes.txt"; path := js "docs/notes.txt"; sha := js "abc";
     size := 2; entry_url := []; html_url := []; type := file;
     content := text; encoding := Some (js "base64") |}.

Definition notes : FileEntry := notes_with None.

Definition docs : FileEntry := Scripted.entry dir "docs".

(** A successful response to the request for one file. *)
Definition file_reply (data : FileEntry) : Scripted.Reply :=
  {| Scripted.repositories := Scripted.respond 200 None (inl Scripted.no_json);
     Scripted.repository := Scripted.respond 200 None (inl Scripted.no_json);
     Scripted.contents := Scripted.respond 200 None (inr (IsEntry data));
     Scripted.any := Scripted.respond 200 None (inr (JObj [])) |}.

Definition twin (hash : string) : FileEntry :=
  {| name := js "x"; path := js "x"; sha := js hash; size := 1;
     entry_url := []; html_url := []; type := file;
     content := None; encoding := None |}.

Definition unreadable : File :=
  {| file_name := js "lost.bin"; webkitRelativePath := [];
     media_type := js "application/octet-stream"; file_bytes := None |}.

Definition in_docs : FileExplorer.State :=
  {| FileExplorer.currentPath := js "docs/api";
     FileExplorer.entries := [Some notes]; FileExplorer.loading := false;
     FileExplorer.selectedFile := Some notes;
     FileExplorer.fileContent := Some (js "hi");
     FileExplorer.uploading := false; FileExplorer.uploadStatus := [];
     FileExplorer.isMenuOpen := false |}.

Definition typed : RepoList.State :=
  {| RepoList.searchTerm := []; RepoList.showCreateModal := true;
     RepoList.newRepoName := js "demo"; RepoList.newRepoPrivate := false;
     RepoList.creating := false |}.

Definition signed_out : App.State :=
  {| App.authData :=
       {| App.user := None; App.token := None;
          App.isAuthenticated := false; App.auth_loading := false |};
     App.repos := []; App.selectedRepo := None; App.repoLoading := false |}.

End MoreExamples.

Lemma fetchContents_failure_shows_empty_witness :
  FileExplorer.view
    (fst (snd (FileExplorer.fetchContents (H := Scripted.host)
                 (C := Scripted.collator) Scripted.demo (js "t") []
                 (BrowserExamples.viewing,
                  Scripted.start [Scripted.failure 404 (js "Not Found")]))))
  = FileExplorer.Empty [].
Proof.
  destruct (fetchContents_failure_shows_empty (H := Scripted.host)
              (C := Scripted.collator) Scripted.demo (js "t") []
              BrowserExamples.viewing
              (Scripted.start [Scripted.failure 404 (js "Not Found")])
              (ErrorObj (js "Error") (js "Not Found")) eq_refl)
    as (st' & w' & E & _ & Hview & _).
  rewrite E. exact Hview.
Defined.

Lemma fetchContents_keeps_displayed_order_witness :
  FileExplorer.entries
    (fst (snd (FileExplorer.fetchContents (H := Scripted.host)
                 (C := Scripted.collator) Scripted.demo (js "t") []
                 (BrowserExamples.at_root,
                  Scripted.start
                    [Scripted.listing
                       (ArraySort.sort
                          (FileExplorer.compare_entries (C := Scripted.collator))
                          BrowserExamples.disordered)]))))
  = map Some
      (ArraySort.sort (FileExplorer.compare_entries (C := Scripted.collator))
         BrowserExamples.disordered).
Proof.
  exact (fetchContents_keeps_displayed_order (H := Scripted.host)
           (C := Scripted.collator) Scripted.demo (js "t") []
           BrowserExamples.at_root
           (Scripted.start
              [Scripted.listing
                 (ArraySort.sort
                    (FileExplorer.compare_entries (C := Scripted.collator))
                    BrowserExamples.disordered)])
           BrowserExamples.disordered eq_refl).
Defined.

Lemma fetchContents_keeps_order_of_equal_names_witness :
  exists shown : list FileEntry,
    FileExplorer.entries
      (fst (snd (FileExplorer.fetchContents (H := Scripted.host)
                   (C := Scripted.collator) Scripted.demo (js "t") []
                   (BrowserExamples.at_root,
                    Scripted.start
                      [Scripted.listing
                         [MoreExamples.twin "2"; MoreExamples.docs;
                          MoreExamples.twin "1"]]))))
    = map Some shown
    /\ forall a : FileEntry,
         ties (FileExplorer.compare_entries (C := Scripted.collator)) a shown
         = ties (FileExplorer.compare_entries (C := Scripted.collator)) a
             [MoreExamples.twin "2"; MoreExamples.docs; MoreExamples.twin "1"].
Proof.
  exact (fetchContents_keeps_order_of_equal_names (H := Scripted.host)
           (C := Scripted.collator) Scripted.demo (js "t") []
           BrowserExamples.at_root
           (Scripted.start
              [Scripted.listing
                 [MoreExamples.twin "2"; MoreExamples.docs; MoreExamples.twin "1"]])
           [MoreExamples.twin "2"; MoreExamples.docs; MoreExamples.twin "1"]
           eq_refl).
Defined.

Lemma handleEntryClick_file_ends_viewing_witness :
  exists text : jsstring,
    FileExplorer.view
      (fst (snd (FileExplorer.handleEntryClick (H := Scripted.host)
                   (C := Scripted.collator) Scripted.demo (js "t")
                   MoreExamples.notes
                   (BrowserExamples.at_root,
                    Scripted.start
                      [MoreExamples.file_reply
                         (MoreExamples.notes_with (Some (js "aGk=")))]))))
    = FileExplorer.ViewingFile [] MoreExamples.notes (Some text).
Proof.
  destruct (handleEntryClick_file_ends_viewing (H := Scripted.host)
              (C := Scripted.collator) Scripted.demo (js "t") MoreExamples.notes
              BrowserExamples.at_root
              (Scripted.start
                 [MoreExamples.file_reply
                    (MoreExamples.notes_with (Some (js "aGk=")))])
              eq_refl)
    as (text & st' & w' & E & Hview & _).
  exists text. rewrite E. exact Hview.
Defined.

Lemma handleEntryClick_request_failure_witness :
  FileExplorer.fileContent
    (fst (snd (FileExplorer.handleEntryClick (H := Scripted.host)
                 (C := Scripted.collator) Scripted.demo (js "t")
                 MoreExamples.notes
                 (BrowserExamples.at_root,
                  Scripted.start [Scripted.failure 404 (js "Not Found")]))))
  = Some (js "Error loading content.").
Proof.
  exact (proj1 (handleEntryClick_request_failure (H := Scripted.host)
                  (C := Scripted.collator) Scripted.demo (js "t")
                  MoreExamples.notes BrowserExamples.at_root
                  (Scripted.start [Scripted.failure 404 (js "Not Found")])
                  (ErrorObj (js "Error") (js "Not Found")) eq_refl eq_refl)).
Defined.

Lemma handleEntryClick_without_content_witness :
  FileExplorer.fileContent
    (fst (snd (FileExplorer.handleEntryClick (H := Scripted.host)
                 (C := Scripted.collator) Scripted.demo (js "t")
                 MoreExamples.notes
                 (BrowserExamples.at_root,
                  Scripted.start [MoreExamples.file_reply MoreExamples.notes]))))
  = Some (js "File is too large to display or is binary.").
Proof.
  exact (handleEntryClick_without_content (H := Scripted.host)
           (C := Scripted.collator) Scripted.demo (js "t")
           MoreExamples.notes MoreExamples.notes BrowserExamples.at_root
           (Scripted.start [MoreExamples.file_reply MoreExamples.notes])
           eq_refl eq_refl (or_introl eq_refl)).
Defined.

Lemma handleEntryClick_content_not_base64_witness :
  FileExplorer.fileContent
    (fst (snd (FileExplorer.handleEntryClick (H := Scripted.host)
                 (C := Scripted.collator) Scripted.demo (js "t")
                 MoreExamples.notes
                 (BrowserExamples.at_root,
                  Scripted.start
                    [MoreExamples.file_reply
                       (MoreExamples.notes_with (Some (js "a*b")))]))))
  = Some (js "Error loading content.").
Proof.
  exact (handleEntryClick_content_not_base64 (H := Scripted.host)
           (C := Scripted.collator) Scripted.demo (js "t")
           MoreExamples.notes (MoreExamples.notes_with (Some (js "a*b")))
           (js "a*b") BrowserExamples.at_root
           (Scripted.start
              [MoreExamples.file_reply (MoreExamples.notes_with (Some (js "a*b")))])
           eq_refl eq_refl eq_refl eq_refl).
Defined.

Lemma handleEntryClick_folder_navigates_witness :
  exists (st' : FileExplorer.State) (w' : World (H := Scripted.host)),
    FileExplorer.handleEntryClick (C := Scripted.collator) Scripted.demo (js "t")
      MoreExamples.docs
      (BrowserExamples.at_root,
       Scripted.start [Scripted.listing [MoreExamples.notes]])
    = (inr tt, (st', w'))
    /\ FileExplorer.currentPath st' = js "docs"
    /\ FileExplorer.selectedFile st' = None
    /\ FileExplorer.entries st' = [Some MoreExamples.notes].
Proof.
  destruct (handleEntryClick_folder_navigates (H := Scripted.host)
              (C := Scripted.collator) Scripted.demo (js "t") MoreExamples.docs
              BrowserExamples.at_root
              (Scripted.start [Scripted.listing [MoreExamples.notes]])
              eq_refl)
    as (st' & w' & E & Hp & Hs & _ & He & _).
  - discriminate.
  - exists st', w'. repeat split; assumption.
Defined.

Lemma handleDelete_needs_selection_and_confirmation_witness :
  FileExplorer.handleDelete (H := Scripted.host) (C := Scripted.collator)
    Scripted.demo (js "t") false
    (BrowserExamples.viewing, Scripted.start [Scripted.committed 200])
  = (inr tt, (BrowserExamples.viewing, Scripted.start [Scripted.committed 200])).
Proof.
  exact (handleDelete_needs_selection_and_confirmation (H := Scripted.host)
           (C := Scripted.collator) Scripted.demo (js "t") false
           BrowserExamples.viewing (Scripted.start [Scripted.committed 200])
           (or_intror eq_refl)).
Defined.

Lemma handleFileUpload_all_committed_witness :
  let run :=
    FileExplorer.handleFileUpload (H := Scripted.host) (C := Scripted.collator)
      Scripted.demo (js "t") [BrowserExamples.a_txt; BrowserExamples.b_txt]
      (BrowserExamples.at_root,
       Scripted.start [Scripted.committed 201; Scripted.committed 201;
                       Scripted.listing [MoreExamples.notes]]) in
  map method (sent (snd (snd run))) = [PUT; PUT; GET]
  /\ alerts (snd (snd run)) = []
  /\ FileExplorer.uploadStatus (fst (snd run)) = js "Upload complete!"
  /\ FileExplorer.entries (fst (snd run)) = [Some MoreExamples.notes].
Proof.
  intros run. subst run.
  edestruct (handleFileUpload_all_committed (H := Scripted.host)
               (C := Scripted.collator) Scripted.demo (js "t")
               BrowserExamples.at_root
               (Scripted.start [Scripted.committed 201; Scripted.committed 201;
                                Scripted.listing [MoreExamples.notes]])
               [BrowserExamples.a_txt; BrowserExamples.b_txt])
    as (st' & w' & E & Hsent & Halerts & Hstatus & _ & _ & _ & Hentries).
  - discriminate.
  - eapply Committed_cons; [reflexivity|reflexivity|].
    eapply Committed_cons; [reflexivity|reflexivity|apply Committed_nil].
  - rewrite E. cbn [fst snd]. rewrite Hsent, Halerts, Hstatus, Hentries.
    repeat split.
Defined.

Lemma handleFileUpload_unreadable_file_witness :
  let run :=
    FileExplorer.handleFileUpload (H := Scripted.host) (C := Scripted.collator)
      Scripted.demo (js "t")
      [BrowserExamples.a_txt; MoreExamples.unreadable; BrowserExamples.c_txt]
      (BrowserExamples.at_root,
       Scripted.start [Scripted.committed 201; Scripted.committed 201]) in
  map method (sent (snd (snd run))) = [PUT]
  /\ alerts (snd (snd run)) = [js "Upload failed: undefined"]
  /\ net (snd (snd run)) = [Scripted.committed 201].
Proof.
  intros run. subst run.
  change [BrowserExamples.a_txt; MoreExamples.unreadable; BrowserExamples.c_txt]
    with ([BrowserExamples.a_txt] ++ MoreExamples.unreadable :: [BrowserExamples.c_txt]).
  erewrite (handleFileUpload_unreadable_file (H := Scripted.host)
              (C := Scripted.collator) Scripted.demo (js "t")
              BrowserExamples.at_root
              (Scripted.start [Scripted.committed 201; Scripted.committed 201])
              [BrowserExamples.a_txt] [BrowserExamples.c_txt]
              MoreExamples.unreadable); cycle 1.
  - eapply Committed_cons; [reflexivity|reflexivity|apply Committed_nil].
  - reflexivity.
  - repeat split.
Defined.

Lemma docs_api_are_segments : Forall is_segment [js "docs"; js "api"].
Proof.
  repeat constructor; discriminate.
Qed.

Lemma breadcrumbs_of_joined_names_witness :
  Breadcrumbs.breadcrumbs (js "docs/api") = [js "docs"; js "api"]
  /\ Breadcrumbs.crumb_path (Breadcrumbs.breadcrumbs (js "docs/api")) 0 = js "docs"
  /\ Breadcrumbs.crumb_path (Breadcrumbs.breadcrumbs (js "docs/api")) 1
     = js "docs/api".
Proof.
  exact (breadcrumbs_of_joined_names [js "docs"; js "api"] 0 docs_api_are_segments).
Defined.

Lemma last_crumb_click_closes_file_witness :
  Breadcrumbs.crumb_click (H := Scripted.host) (C := Scripted.collator)
    Scripted.demo (js "t") 1
    (MoreExamples.in_docs, Scripted.start [Scripted.listing []])
  = (inr tt,
     (FileExplorer.setSelectedFile None MoreExamples.in_docs,
      Scripted.start [Scripted.listing []])).
Proof.
  apply (last_crumb_click_closes_file (H := Scripted.host) (C := Scripted.collator)
           Scripted.demo (js "t") [js "docs"; js "api"] MoreExamples.in_docs
           (Scripted.start [Scripted.listing []])).
  - discriminate.
  - exact docs_api_are_segments.
  - reflexivity.
Defined.

Lemma go_to_other_path_fetches_witness :
  exists (st' : FileExplorer.State) (w' : World (H := Scripted.host)),
    Breadcrumbs.go_to (C := Scripted.collator) Scripted.demo (js "t") (js "docs")
      (MoreExamples.in_docs, Scripted.start [Scripted.listing [MoreExamples.docs]])
    = (inr tt, (st', w'))
    /\ FileExplorer.currentPath st' = js "docs"
    /\ FileExplorer.selectedFile st' = None
    /\ FileExplorer.entries st' = [Some MoreExamples.docs].
Proof.
  destruct (go_to_other_path_fetches (H := Scripted.host) (C := Scripted.collator)
              Scripted.demo (js "t") (js "docs") MoreExamples.in_docs
              (Scripted.start [Scripted.listing [MoreExamples.docs]]))
    as (st' & w' & E & Hp & Hs & He & _).
  - discriminate.
  - exists st', w'. repeat split; assumption.
Defined.

Lemma handleCreateRepo_failure_rethrows_witness :
  fst (App.handleCreateRepo (H := Scripted.host) (js "demo") false
         (ShellExamples.signed_in,
          Scripted.start [Scripted.failure 422 (js "name already exists")]))
  = inl (ErrorObj (js "Error") (js "name already exists")).
Proof.
  rewrite (handleCreateRepo_failure_rethrows (H := Scripted.host)
             ShellExamples.signed_in
             (Scripted.start [Scripted.failure 422 (js "name already exists")])
             (js "t") (js "demo") false
             (ErrorObj (js "Error") (js "name already exists")) eq_refl).
  - reflexivity.
  - discriminate.
  - reflexivity.
Defined.

Lemma handleCreateRepo_without_token_witness :
  App.handleCreateRepo (H := Scripted.host) (js "demo") false
    (MoreExamples.signed_out, Scripted.start [Scripted.created Scripted.demo])
  = (inr tt,
     (MoreExamples.signed_out, Scripted.start [Scripted.created Scripted.demo])).
Proof.
  exact (handleCreateRepo_without_token (H := Scripted.host)
           MoreExamples.signed_out
           (Scripted.start [Scripted.created Scripted.demo])
           (js "demo") false (or_introl eq_refl)).
Defined.

Lemma handleCreate_outcomes_witness :
  RepoList.handleCreate (H := Scripted.host) App.State App.handleCreateRepo
    (MoreExamples.typed,
     (ShellExamples.signed_in,
      Scripted.start [Scripted.failure 422 (js "name already exists")]))
  = (inr tt,
     (MoreExamples.typed,
      (ShellExamples.signed_in,
       @Build_World Scripted.host []
         [create_request (js "t") (js "demo") false]
         [js "Failed to create repository"]
         [ErrorObj (js "Error") (js "name already exists")]))).
Proof.
  refine (handleCreate_outcomes (H := Scripted.host) App.State
            App.handleCreateRepo MoreExamples.typed
            (ShellExamples.signed_in,
             Scripted.start [Scripted.failure 422 (js "name already exists")])
            _).
  discriminate.
Defined.

Lemma replace_whitespace_keeps_clean_names_witness :
  RepoList.replace_whitespace (js "my-new_repo.v2") = js "my-new_repo.v2".
Proof.
  apply replace_whitespace_keeps_clean_names.
  repeat constructor.
Defined.

Lemma submit_creates_or_alerts_witness :
  RepoList.handle (H := Scripted.host) App.State App.handleCreateRepo
    RepoList.Submit
    (MoreExamples.typed,
     (ShellExamples.signed_in, Scripted.start [Scripted.created Scripted.demo]))
  = (inr tt,
     ({| RepoList.searchTerm := []; RepoList.showCreateModal := false;
         RepoList.newRepoName := []; RepoList.newRepoPrivate := false;
         RepoList.creating := false |},
      (App.setRepos [Some Scripted.demo] ShellExamples.signed_in,
       @Build_World Scripted.host []
         [create_request (js "t") (js "demo") false] [] []))).
Proof.
  refine (submit_creates_or_alerts (H := Scripted.host) MoreExamples.typed
            ShellExamples.signed_in
            (Scripted.start [Scripted.created Scripted.demo]) (js "t")
            _ eq_refl _); discriminate.
Defined.

Lemma bytes_survive_wrapped_base64_witness :
  FileExplorer.content_bytes (js "77u/" ++ [10] ++ js "aGk=" ++ [10])
  = Some [xef; xbb; xbf; x68; x69].
Proof.
  exact (bytes_survive_wrapped_base64 unit
           (RoundTripExamples.file_of RoundTripExamples.marked)
           [xef; xbb; xbf; x68; x69] tt (js "77u/aGk=")
           (js "77u/" ++ [10] ++ js "aGk=" ++ [10])
           eq_refl eq_refl eq_refl eq_refl).
Defined.

Lemma text_after_byte_order_mark_is_shown_witness :
  exists encoded : jsstring,
    Github.toBase64 (RoundTripExamples.file_of RoundTripExamples.marked) tt
      = (inr encoded, tt)
    /\ FileExplorer.decode_content encoded = Some (js "hi").
Proof.
  exact (text_after_byte_order_mark_is_shown unit
           (RoundTripExamples.file_of RoundTripExamples.marked)
           [104; 105] tt eq_refl eq_refl eq_refl).
Defined.

(* ================================================================== *)
(** * What every request of the client carries *)
(* ================================================================== *)

Section Signed.
Context {H : Host}.

(** The request goes to the API of GitHub with the token of the caller and
    asks for version 3 of the JSON representation. *)
Definition signed_with (token : jsstring) (r : Request) : Prop :=
  startsWith (url r) (js "https://api.github.com/") = true
  /\ headers r =
       [ (js "Authorization", js "token " ++ token);
         (js "Accept", js "application/vnd.github.v3+json");
         (js "Content-Type", js "application/json") ].

(** What a computation on the world sends. *)
Definition sends_one {A : Type} (m : M World A) (w : World)
    (ok_request : Request -> Prop) : Prop :=
  exists r : Request, sent (snd (m w)) = sent w ++ [r] /\ ok_request r
  /\ alerts (snd (m w)) = alerts w /\ console (snd (m w)) = console w.

(** Each of the five operations of the service sends exactly one request,
    whatever the remote answers, with the method of the operation, the token
    it was given and the fixed headers; none shows an alert or writes to the
    console. *)
Theorem service_operations_send_one_signed_request :
  forall (token owner repo path sha message : jsstring)
         (create : CreateRepoParams) (commit : CommitParams) (w : World),
    sends_one (Github.getUserRepos token) w
      (fun r => signed_with token r /\ method r = GET /\ body r = NoBody)
    /\ sends_one (Github.createRepo token create) w
         (fun r => signed_with token r /\ method r = POST
                   /\ body r = CreateRepoBody create)
    /\ sends_one (Github.getContents token owner repo path) w
         (fun r => signed_with token r /\ method r = GET /\ body r = NoBody)
    /\ sends_one (Github.createFile token commit) w
         (fun r => signed_with token r /\ method r = PUT)
    /\ sends_one (Github.deleteFile token owner repo path sha message) w
         (fun r => signed_with token r /\ method r = DELETE
                   /\ body r = DeleteBody message sha).
Proof.
  intros token owner repo path sha message create commit w.
  unfold sends_one, signed_with, Github.getUserRepos, Github.createRepo,
    Github.getContents, Github.createFile, Github.deleteFile.
  rewrite !githubFetch_run. cbn [snd sent alerts console].
  repeat split; eexists; (split; [reflexivity|]); repeat split.
Qed.

End Signed.
